(** * fdtdump: decoding a flattened device tree

    A shallow embedding of [fdtdump.c]: the blob decoder [dump_blob]
    (header summary, reservation map, structure-block walker), the
    live-tree walker [dump_live] and the embedded-blob scan of [main].

    Pointers are machine addresses ([Z]); the file image is a [buffer]
    (base address and bytes).  A read outside the buffer is undefined in
    C; the embedding stops there with a [Fault] result.  Standard output
    and standard error are the strings written so far. *)

From Stdlib Require Import ZArith List String Ascii Bool Lia.
From Stdlib Require Import Strings.Byte.
From Stdlib Require Import HexString DecimalString.
Import ListNotations.
Open Scope Z_scope.

(** ** Machine integers *)

(** [unsigned long] and [size_t] (LP64): values modulo 2^64. *)
Definition ulong (z : Z) : Z := z mod 2 ^ 64.

(** [uint32_t]: values modulo 2^32. *)
Definition uint32 (z : Z) : Z := z mod 2 ^ 32.

(** Conversion of a [uint32_t] to [int] (two's complement). *)
Definition to_int (z : Z) : Z :=
  if uint32 z <? 2 ^ 31 then uint32 z else uint32 z - 2 ^ 32.

(** [#define ALIGN(x, a) (((x) + ((a) - 1)) & ~((a) - 1))], on
    [unsigned long] [x] and an [int] constant [a]. *)
Definition ALIGN (x a : Z) : Z :=
  Z.land (ulong (x + (a - 1))) (ulong (Z.lnot (a - 1))).

(** [#define PALIGN(p, a) ((void * )(ALIGN((unsigned long)(p), (a))))] *)
Definition PALIGN (p a : Z) : Z := ALIGN (ulong p) a.

(** ** The file image *)

Record buffer : Type := mkbuf {
  buf_base : Z;             (* address of the first byte *)
  buf_bytes : list byte     (* the bytes, [len] of them *)
}.

Definition buf_len (m : buffer) : Z := Z.of_nat (List.length (buf_bytes m)).

(** The bytes from address [a] to the end of the buffer. *)
Definition bytes_from (m : buffer) (a : Z) : list byte :=
  if a <? buf_base m then []
  else skipn (Z.to_nat (a - buf_base m)) (buf_bytes m).

(** [*(const char * )a] *)
Definition load (m : buffer) (a : Z) : option byte :=
  nth_error (bytes_from m a) 0.

Definition byteZ (b : byte) : Z := Z.of_N (Byte.to_N b).

(** Big-endian value of a byte string. *)
Fixpoint be_value (acc : Z) (l : list byte) : Z :=
  match l with
  | [] => acc
  | b :: r => be_value (Z.lor (Z.shiftl acc 8) (byteZ b)) r
  end.

(** The [n] bytes at address [a], when all of them are in the buffer. *)
Definition span (m : buffer) (a : Z) (n : Z) : option (list byte) :=
  if n <? 0 then None
  else if a <? buf_base m then None
  else
    let l := firstn (Z.to_nat n) (bytes_from m a) in
    if Z.of_nat (List.length l) =? n then Some l else None.

(** [fdt32_to_cpu( *(const uint32_t * )a)] *)
Definition load32 (m : buffer) (a : Z) : option Z :=
  option_map (be_value 0) (span m a 4).

(** [fdt64_to_cpu( *(const uint64_t * )a)] *)
Definition load64 (m : buffer) (a : Z) : option Z :=
  option_map (be_value 0) (span m a 8).

(** The characters of a C string, up to its terminator. *)
Fixpoint until_nul (l : list byte) : option (list byte) :=
  match l with
  | [] => None
  | b :: r =>
      if Byte.eqb b x00 then Some []
      else option_map (cons b) (until_nul r)
  end.

(** The C string at address [a]; [None] when no terminator is found
    before the end of the buffer. *)
Definition cstring (m : buffer) (a : Z) : option (list byte) :=
  until_nul (bytes_from m a).

(** [strlen] *)
Definition strlen (s : list byte) : Z := Z.of_nat (List.length s).

(** ** printf conversions *)

Module Printf.

Fixpoint replicate (n : nat) (c : ascii) : string :=
  match n with
  | O => EmptyString
  | S k => String c (replicate k c)
  end.

(** [%x] *)
Definition x (z : Z) : string :=
  match z with
  | Zpos p => HexString.Raw.of_pos p ""
  | _ => "0"
  end.

(** [%0<w>x] *)
Definition x0 (w : nat) (z : Z) : string :=
  let s := x z in (replicate (w - String.length s) "0" ++ s)%string.

(** [%#x]: the prefix is left out for zero. *)
Definition x_alt (z : Z) : string :=
  if z =? 0 then "0"%string else ("0x" ++ x z)%string.

(** [%d] *)
Definition d (z : Z) : string := NilZero.string_of_int (Z.to_int z).

(** [%*s] with the empty string: a negative width is a left
    adjustment to the absolute width. *)
Definition pad (width : Z) : string := replicate (Z.abs_nat width) " ".

(** [%s] *)
Definition s (l : list byte) : string := string_of_list_byte l.

End Printf.

Definition nl : string := String (ascii_of_nat 10) EmptyString.
Definition tab : string := String (ascii_of_nat 9) EmptyString.

(** ** Running the program: output, faults and exits *)

(** The two output streams, as written so far. *)
Record stdio : Type := mkio {
  out : string;     (* standard output *)
  err : string      (* standard error *)
}.

Inductive res (A : Type) : Type :=
| Ok (a : A)        (* the computation went on with [a] *)
| Fault             (* a read outside the buffer *)
| Exit (code : Z)   (* the process was ended by [exit(code)] *)
| OutOfFuel.        (* the loop did not end within the fuel given *)
Arguments Ok {A} a.
Arguments Fault {A}.
Arguments Exit {A} code.
Arguments OutOfFuel {A}.

(** A computation writes to the streams and gives a result. *)
Definition M (A : Type) : Type := stdio -> res A * stdio.

Definition ret {A} (a : A) : M A := fun io => (Ok a, io).

Definition bind {A B} (c : M A) (k : A -> M B) : M B :=
  fun io =>
    match c io with
    | (Ok a, io') => k a io'
    | (Fault, io') => (Fault, io')
    | (Exit n, io') => (Exit n, io')
    | (OutOfFuel, io') => (OutOfFuel, io')
    end.

Notation "x <- c ;; k" := (bind c (fun x => k))
  (at level 61, c at next level, right associativity).
Notation "c ;;; k" := (bind c (fun _ => k))
  (at level 61, right associativity).

(** A read through a pointer: a fault when it is outside the buffer. *)
Definition rd {A} (o : option A) : M A :=
  fun io => match o with Some a => (Ok a, io) | None => (Fault, io) end.

Open Scope string_scope.
Open Scope Z_scope.

(** [printf] / [fprintf(stderr, ...)] with the text already formatted. *)
Definition printf (s : string) : M unit :=
  fun io => (Ok tt, mkio (out io ++ s) (err io)).

Definition eprintf (s : string) : M unit :=
  fun io => (Ok tt, mkio (out io) (err io ++ s)).

(** [#define dumpf(fmt, args...) do { if (debug) printf("// " fmt, ## args); } while (0)] *)
Definition dumpf (debug : bool) (s : string) : M unit :=
  if debug then printf ("// " ++ s) else ret tt.

(** The text that [dumpf] adds to standard output. *)
Definition dbg (debug : bool) (s : string) : string :=
  if debug then "// " ++ s else "".

(** Modelled from the spec: [die] is declared in [util.h], which is not
    part of the sources; a fatal condition is reported on standard error
    and ends the process with a non-zero status. *)
Definition die {A} (s : string) : M A :=
  fun io => (Exit 1, mkio (out io) (err io ++ s)).

(** ** The format's constants *)

(** [fdt.h], which declares the magic number, the tags and
    [struct fdt_header], is not part of the sources. *)

(** Modelled from the spec: the magic number of the format, [FDT_MAGIC]
    in [fdt.h], stored big-endian in the first cell of a blob. *)
Definition FDT_MAGIC : Z := 0xd00dfeed.

(** Modelled from the spec: the tag of a BeginNode record,
    [FDT_BEGIN_NODE] in [fdt.h]. *)
Definition FDT_BEGIN_NODE : Z := 1.

(** Modelled from the spec: the tag of an EndNode record, [FDT_END_NODE]
    in [fdt.h]. *)
Definition FDT_END_NODE : Z := 2.

(** Modelled from the spec: the tag of a Property record, [FDT_PROP] in
    [fdt.h]. *)
Definition FDT_PROP : Z := 3.

(** Modelled from the spec: the tag of a Nop record, [FDT_NOP] in
    [fdt.h]. *)
Definition FDT_NOP : Z := 4.

(** Modelled from the spec: the tag that ends the structure block,
    [FDT_END] in [fdt.h]. *)
Definition FDT_END : Z := 9.

(** Modelled from the spec: the offsets of the fields of
    [struct fdt_header] in [fdt.h], ten cells of 4 bytes: magic, total
    size, the offsets of the structure block, of the strings block and
    of the reservation map, version, last compatible version, and the
    trailer fields for the boot CPU and the sizes of the two blocks. *)
Definition o_magic : Z := 0.
Definition o_totalsize : Z := 4.
Definition o_off_dt_struct : Z := 8.
Definition o_off_dt_strings : Z := 12.
Definition o_off_mem_rsvmap : Z := 16.
Definition o_version : Z := 20.
Definition o_last_comp_version : Z := 24.
Definition o_boot_cpuid_phys : Z := 28.
Definition o_size_dt_strings : Z := 32.
Definition o_size_dt_struct : Z := 36.

(** [fdt32_to_cpu(bph->field)] *)
Definition hdr (m : buffer) (blob : Z) (field : Z) : option Z :=
  load32 m (blob + field).

(** [static const char *tagname(uint32_t tag)]: the table [names] has
    the five tags, and every other index gives ["FDT_???"]. *)
Definition tagname (tag : Z) : string :=
  if tag =? FDT_BEGIN_NODE then "FDT_BEGIN_NODE"
  else if tag =? FDT_END_NODE then "FDT_END_NODE"
  else if tag =? FDT_PROP then "FDT_PROP"
  else if tag =? FDT_NOP then "FDT_NOP"
  else if tag =? FDT_END then "FDT_END"
  else "FDT_???".

(** [shift = 4]: columns of indentation per level. *)
Definition shift : Z := 4.

(** What the body of a loop asks for next. *)
Inductive control : Type :=
| Continue (p : Z) (depth : Z)   (* next iteration, with the cursor and depth *)
| Leave (p : Z) (depth : Z).     (* the loop is left *)

(** ** [dump_blob] *)

Section Decoder.

(** Modelled from the spec: [utilfdt_print_data] is defined in
    [util.c], which is not part of the sources; given the byte span of
    a value it returns the text to print.  The span handed over must
    lie inside the buffer and have a non-negative length, otherwise
    the embedding faults. *)
Variable utilfdt_print_data : list byte -> string.

(** The reservation map: [for (i = 0; ; i++)] over
    [struct fdt_reserve_entry p_rsvmap[]]. *)
Fixpoint rsvmap_loop (fuel : nat) (m : buffer) (p_rsvmap : Z) (i : Z)
  : M unit :=
  match fuel with
  | O => fun io => (OutOfFuel, io)
  | S f =>
      addr <- rd (load64 m (p_rsvmap + 16 * i)) ;;
      size <- rd (load64 m (p_rsvmap + 16 * i + 8)) ;;
      if (addr =? 0) && (size =? 0) then ret tt
      else
        printf ("/memreserve/ " ++ Printf.x_alt addr ++ " "
                ++ Printf.x_alt size ++ ";" ++ nl) ;;;
        rsvmap_loop f m p_rsvmap (i + 1)
  end.

Section Walker.

Variable m : buffer.
Variable debug : bool.
Variables blob_off p_strings version : Z.

(** [if (version < 16 && sz >= 8) p = PALIGN(p, 8); t = p;]: the start
    of the value, from the cursor after the two cells. *)
Definition prop_value (sz p : Z) : Z :=
  if (version <? 16) && (sz >=? 8) then PALIGN p 8 else p.

(** The property record, after its tag. *)
Definition walk_prop (p depth : Z) : M control :=
  szc <- rd (load32 m p) ;;
  let sz := to_int szc in
  let p := p + 4 in
  nameoff <- rd (load32 m p) ;;
  let s := p_strings + nameoff in
  let p := p + 4 in
  let t := prop_value sz p in
  let p := t in
  let p := PALIGN (p + sz) 4 in
  name <- rd (cstring m s) ;;
  dumpf debug (Printf.x0 4 (ulong (s - blob_off)) ++ ": string: "
               ++ Printf.s name ++ nl) ;;;
  dumpf debug (Printf.x0 4 (ulong (t - blob_off)) ++ ": value" ++ nl) ;;;
  printf (Printf.pad (depth * shift) ++ Printf.s name) ;;;
  value <- rd (span m t sz) ;;
  printf (utilfdt_print_data value) ;;;
  printf (";" ++ nl) ;;;
  ret (Continue p depth).

(** One turn of
    [while ((tag = fdt32_to_cpu(GET_CELL(p))) != FDT_END) { ... }]. *)
Definition walk_step (p depth : Z) : M control :=
  tag <- rd (load32 m p) ;;           (* GET_CELL(p): the cell at p, ... *)
  let p := p + 4 in                   (* ... and p += 4 *)
  if tag =? FDT_END then ret (Leave p depth)
  else
    dumpf debug (Printf.x0 4 (ulong (p - blob_off - 4)) ++ ": tag: 0x"
                 ++ Printf.x0 8 tag ++ " (" ++ tagname tag ++ ")" ++ nl) ;;;
    if tag =? FDT_BEGIN_NODE then
      s <- rd (cstring m p) ;;
      let p := PALIGN (p + strlen s + 1) 4 in
      let s := match s with [] => "/" | _ => Printf.s s end in
      printf (Printf.pad (depth * shift) ++ s ++ " {" ++ nl) ;;;
      ret (Continue p (depth + 1))
    else if tag =? FDT_END_NODE then
      let depth := depth - 1 in
      printf (Printf.pad (depth * shift) ++ "};" ++ nl) ;;;
      ret (Continue p depth)
    else if tag =? FDT_NOP then
      printf (Printf.pad (depth * shift) ++ "// [NOP]" ++ nl) ;;;
      ret (Continue p depth)
    else if negb (tag =? FDT_PROP) then
      eprintf (Printf.pad (depth * shift) ++ " ** Unknown tag 0x"
               ++ Printf.x0 8 tag ++ nl) ;;;
      ret (Leave p depth)
    else walk_prop p depth.

(** The loop; its result is the cursor and the depth on leaving. *)
Fixpoint walk (fuel : nat) (p depth : Z) : M (Z * Z) :=
  match fuel with
  | O => fun io => (OutOfFuel, io)
  | S f =>
      c <- walk_step p depth ;;
      match c with
      | Continue p' depth' => walk f p' depth'
      | Leave p' depth' => ret (p', depth')
      end
  end.

(** The turns of the loop as steps from state to state:
    [walks k p depth io p' depth' io'] when [k] turns, the first at
    cursor [p] and depth [depth] with the streams [io], each go on to
    a next turn, and leave cursor [p'], depth [depth'] and the streams
    [io']. *)
Inductive walks : nat -> Z -> Z -> stdio -> Z -> Z -> stdio -> Prop :=
| walks_O (p depth : Z) (io : stdio) : walks O p depth io p depth io
| walks_S (k : nat) (p depth : Z) (io : stdio) (p1 depth1 : Z) (io1 : stdio)
          (p2 depth2 : Z) (io2 : stdio) :
    walk_step p depth io = (Ok (Continue p1 depth1), io1) ->
    walks k p1 depth1 io1 p2 depth2 io2 ->
    walks (S k) p depth io p2 depth2 io2.

End Walker.

(** The commented summary of the header: the [printf] calls of
    [dump_blob] from the line of the magic number to the empty line,
    with the two fields that are only read there. *)
Definition dump_header (m : buffer) (blob : Z)
           (off_mem_rsvmap off_dt off_str version totalsize : Z) : M unit :=
  magic <- rd (hdr m blob o_magic) ;;
  printf ("// magic:" ++ tab ++ tab ++ "0x" ++ Printf.x magic ++ nl) ;;;
  printf ("// totalsize:" ++ tab ++ tab ++ "0x" ++ Printf.x totalsize
          ++ " (" ++ Printf.d (to_int totalsize) ++ ")" ++ nl) ;;;
  printf ("// off_dt_struct:" ++ tab ++ "0x" ++ Printf.x off_dt ++ nl) ;;;
  printf ("// off_dt_strings:" ++ tab ++ "0x" ++ Printf.x off_str ++ nl) ;;;
  printf ("// off_mem_rsvmap:" ++ tab ++ "0x" ++ Printf.x off_mem_rsvmap
          ++ nl) ;;;
  printf ("// version:" ++ tab ++ tab ++ Printf.d (to_int version) ++ nl) ;;;
  last_comp_version <- rd (hdr m blob o_last_comp_version) ;;
  printf ("// last_comp_version:" ++ tab
          ++ Printf.d (to_int last_comp_version) ++ nl) ;;;
  (if version >=? 2 then
     boot_cpuid_phys <- rd (hdr m blob o_boot_cpuid_phys) ;;
     printf ("// boot_cpuid_phys:" ++ tab ++ "0x"
             ++ Printf.x boot_cpuid_phys ++ nl)
   else ret tt) ;;;
  (if version >=? 3 then
     size_dt_strings <- rd (hdr m blob o_size_dt_strings) ;;
     printf ("// size_dt_strings:" ++ tab ++ "0x"
             ++ Printf.x size_dt_strings ++ nl)
   else ret tt) ;;;
  (if version >=? 17 then
     size_dt_struct <- rd (hdr m blob o_size_dt_struct) ;;
     printf ("// size_dt_struct:" ++ tab ++ "0x"
             ++ Printf.x size_dt_struct ++ nl)
   else ret tt) ;;;
  printf nl.

(** [static void dump_blob(void *blob, bool debug)]; each of its two
    loops may take up to [fuel] turns. *)
Definition dump_blob (fuel : nat) (m : buffer) (blob : Z) (debug : bool)
  : M unit :=
  let blob_off := ulong blob in
  off_mem_rsvmap <- rd (hdr m blob o_off_mem_rsvmap) ;;
  off_dt <- rd (hdr m blob o_off_dt_struct) ;;
  off_str <- rd (hdr m blob o_off_dt_strings) ;;
  let p_rsvmap := blob + off_mem_rsvmap in
  let p_struct := blob + off_dt in
  let p_strings := blob + off_str in
  version <- rd (hdr m blob o_version) ;;
  totalsize <- rd (hdr m blob o_totalsize) ;;
  let depth := 0 in
  printf ("/dts-v1/;" ++ nl) ;;;
  dump_header m blob off_mem_rsvmap off_dt off_str version totalsize ;;;
  rsvmap_loop fuel m p_rsvmap 0 ;;;
  walk m debug blob_off p_strings version fuel p_struct depth ;;;
  ret tt.

End Decoder.

(** ** The live tree *)

(** What [stat], [open] and [read] give for a regular file. *)
Record regfile : Type := mkfile {
  f_size : option Z;      (* [sb.st_size]; [None] when [stat] fails *)
  f_opens : bool;         (* [open] gives a descriptor *)
  f_bytes : list byte;    (* the bytes that [read] delivers, in order *)
  f_fails : bool          (* behind them [read] fails, instead of giving 0 *)
}.

(** A file that [stat], [open] and [read] serve without error. *)
Definition plain (st_size : Z) (content : list byte) : regfile :=
  mkfile (Some st_size) true content false.

(** A directory entry, as [readdir], [stat], [open] and [opendir] show
    it: a regular file, a directory with its entries (in the order
    [readdir] gives them, [.] and [..] included), a directory that
    [opendir] does not open, or anything else. *)
#[warnings="-register-all"]
Inductive entry : Type :=
| Reg (d_name : string) (f : regfile)
| Dir (d_name : string) (entries : list entry)
| NoDir (d_name : string)
| Other (d_name : string).

(** [buf_alloc = 4 * 1024;	/* 4K (maximum chunk) */] *)
Definition buf_alloc : Z := 4 * 1024.

Section Live.

Variable utilfdt_print_data : list byte -> string.

(** [while (left > 0) { do { ret = read(fd, p, left); } while (...);
    if (ret == -1) die(...); left -= ret; p += ret; }]
    where [read] gives the bytes asked for as long as the file has
    them and, at their end, 0 or (when [fails]) -1; a [read] that is
    interrupted ([EAGAIN], [EINTR]) is repeated at once, so that only
    its final result counts.  [file] is what is still unread and [buf]
    what has been stored. *)
Fixpoint read_loop (fuel : nat) (new_path : string) (fails : bool)
         (file : list byte) (left : Z) (buf : list byte) : M (list byte) :=
  if left >? 0 then
    match fuel with
    | O => fun io => (OutOfFuel, io)
    | S f =>
        if fails && match file with [] => true | _ => false end
        then die ("Read failed on: " ++ new_path ++ nl)
        else
          let got := firstn (Z.to_nat left) file in
          let ret := Z.of_nat (List.length got) in
          read_loop f new_path fails (skipn (List.length got) file)
                    (left - ret) (buf ++ got)%list
    end
  else ret buf.

(** The span [(buf, chunk)] handed to the renderer. *)
Definition buf_span (buf : list byte) (chunk : Z) : option (list byte) :=
  if chunk <? 0 then None else Some (firstn (Z.to_nat chunk) buf).

(** The body of the first loop, for the regular file [d_name] of the
    directory [path]. *)
Definition dump_live_file (fuel : nat) (path d_name : string) (f : regfile)
           (depth : Z) : M unit :=
  let new_path := path ++ "/" ++ d_name in
  printf (Printf.pad (depth * shift) ++ d_name) ;;;
  st_size <- match f_size f with
             | Some st_size => ret st_size
             | None => die ("could not open: " ++ new_path ++ nl)
             end ;;
  (if f_opens f then ret tt
   else die ("Could not open: " ++ new_path ++ nl)) ;;;
  let chunk := if st_size >? buf_alloc then buf_alloc else st_size in
  buf <- read_loop fuel new_path (f_fails f) (f_bytes f) chunk [] ;;
  (if chunk <? st_size then printf " (trunc)" else ret tt) ;;;
  value <- rd (buf_span buf chunk) ;;
  printf (utilfdt_print_data value) ;;;
  printf (";" ++ nl).

(** [/* first dump the properties (files) */] *)
Fixpoint dump_live_files (fuel : nat) (path : string) (l : list entry)
         (depth : Z) : M unit :=
  match l with
  | [] => ret tt
  | Reg d_name f :: r =>
      dump_live_file fuel path d_name f depth ;;;
      dump_live_files fuel path r depth
  | _ :: r => dump_live_files fuel path r depth
  end.

(** [strcmp(de->d_name, ".") == 0 || strcmp(de->d_name, "..") == 0] *)
Definition is_dot (d_name : string) : bool :=
  String.eqb d_name "." || String.eqb d_name "..".

(** [static void dump_live_internal(const char *path, bool debug, int depth)],
    with [dir] what is found at [path]: [opendir] opens a [Dir] and
    nothing else. *)
Fixpoint dump_live_internal (fuel : nat) (path : string) (dir : entry)
         (debug : bool) (depth : Z) {struct dir} : M unit :=
  match dir with
  | Dir _ entries =>
      dump_live_files fuel path entries depth ;;;
      (fix dirs (l : list entry) : M unit :=
         match l with
         | [] => ret tt
         | (Dir d_name _ | NoDir d_name) as de :: r =>
             if is_dot d_name then dirs r
             else
               let new_path := path ++ "/" ++ d_name in
               printf (Printf.pad (depth * shift) ++ d_name ++ " {" ++ nl) ;;;
               dump_live_internal fuel new_path de debug (depth + 1) ;;;
               printf (Printf.pad (depth * shift) ++ "};" ++ nl) ;;;
               dirs r
         | _ :: r => dirs r
         end) entries
  | _ => die ("Could not open " ++ path ++ " directory" ++ nl)
  end.

(** [/* strip trailing / */], on the reversed path: the first
    character of the path is kept. *)
Fixpoint strip_rev (l : list ascii) : list ascii :=
  match l with
  | c :: (_ :: _) as r => if Ascii.eqb c "/" then strip_rev r else l
  | _ => l
  end.

Definition strip_trailing (path : string) : string :=
  string_of_list_ascii (rev (strip_rev (rev (list_ascii_of_string path)))).

(** [static void dump_live(const char *path, bool debug)] *)
Definition dump_live (fuel : nat) (path : string) (dir : entry)
           (debug : bool) : M unit :=
  let fixed_path := strip_trailing path in
  printf ("/* dump of live tree at " ++ fixed_path ++ " */" ++ nl) ;;;
  printf ("/ {" ++ nl) ;;;
  dump_live_internal fuel fixed_path dir debug 1 ;;;
  printf ("};" ++ nl).

End Live.

(** ** [main]: the scan for an embedded blob *)

Definition byte_of_Z (z : Z) : byte :=
  match Byte.of_N (Z.to_N (z mod 256)) with
  | Some b => b
  | None => x00
  end.

(** [fdt_set_magic(smagic, FDT_MAGIC)]: the magic number as it is stored. *)
Definition smagic : list byte :=
  [ byte_of_Z (Z.shiftr FDT_MAGIC 24); byte_of_Z (Z.shiftr FDT_MAGIC 16);
    byte_of_Z (Z.shiftr FDT_MAGIC 8); byte_of_Z FDT_MAGIC ].

Definition smagic0 : byte := hd x00 smagic.

(** Index of the first [c] in [l]. *)
Fixpoint find_byte (c : byte) (l : list byte) : option nat :=
  match l with
  | [] => None
  | b :: r => if Byte.eqb b c then Some O else option_map S (find_byte c r)
  end.

(** [memchr(p, c, n)] with [n] a [size_t]: the bytes are read in order
    up to the first [c]; the result is its address ([Some (Some q)]),
    the null pointer when none of the [n] bytes is [c] ([Some None]), or
    undefined when the search leaves the buffer ([None]). *)
Definition memchr (m : buffer) (p : Z) (c : byte) (n : Z)
  : option (option Z) :=
  let l := bytes_from m p in
  match find_byte c l with
  | Some i => if Z.of_nat i <? n then Some (Some (p + Z.of_nat i))
              else Some None
  | None => if n <=? Z.of_nat (List.length l) then Some None else None
  end.

(** The test that validates the main struct, its reads in the order of
    the [&&] chain. *)
Definition plausible (m : buffer) (p this_len : Z) : M bool :=
  let max_version := 17 in
  version <- rd (hdr m p o_version) ;;
  if negb (version <=? max_version) then ret false else
  last_comp_version <- rd (hdr m p o_last_comp_version) ;;
  if negb (last_comp_version <? max_version) then ret false else
  totalsize <- rd (hdr m p o_totalsize) ;;
  if negb (totalsize <? this_len) then ret false else
  off_dt_struct <- rd (hdr m p o_off_dt_struct) ;;
  if negb (off_dt_struct <? this_len) then ret false else
  off_dt_strings <- rd (hdr m p o_off_dt_strings) ;;
  ret (off_dt_strings <? this_len).

(** [/* poor man's memmem */ while (true) { ... }]; the result is [p]
    on leaving the loop, [None] for the null pointer. *)
Fixpoint scan_loop (fuel : nat) (m : buffer) (debug : bool) (file : string)
         (buf endp p : Z) : M (option Z) :=
  match fuel with
  | O => fun io => (OutOfFuel, io)
  | S f =>
      r <- rd (memchr m p smagic0 (ulong (endp - p - 4))) ;;
      match r with
      | None => ret None
      | Some p =>
          magic <- rd (hdr m p o_magic) ;;
          found <-
            (if magic =? FDT_MAGIC then
               ok <- plausible m p (endp - p) ;;
               if ok then ret true
               else
                 (if debug then
                    printf (file ++ ": skipping fdt magic at offset "
                            ++ Printf.x_alt (ulong (p - buf)) ++ nl)
                  else ret tt) ;;;
                 ret false
             else ret false) ;;
          if found : bool then ret (Some p)
          else scan_loop f m debug file buf endp (p + 1)
      end
  end.

(** [/* try and locate an embedded fdt in a bigger blob */] *)
Definition scan_blob (fuel : nat) (m : buffer) (debug : bool) (file : string)
  : M Z :=
  let buf := buf_base m in
  let endp := buf + buf_len m in
  p <- scan_loop fuel m debug file buf endp buf ;;
  match p with
  | None => die (file ++ ": could not locate fdt magic" ++ nl)
  | Some p =>
      printf (file ++ ": found fdt at offset "
              ++ Printf.x_alt (ulong (p - buf)) ++ nl) ;;;
      ret p
  end.

(** What [stat] and [utilfdt_read_len] find at the path given. *)
Inductive input : Type :=
| Missing                      (* [stat] fails *)
| Directory (root : entry)     (* [S_ISDIR] *)
| Unreadable                   (* [utilfdt_read_len] gives [NULL] *)
| File (m : buffer).           (* the file image, where it was read to *)

Section Main.

Variable utilfdt_print_data : list byte -> string.

(** [int main(int argc, char *argv[])], after the options are read:
    [debug] and [scan] are the [-d] and [-s] flags, [file] the
    argument.  The result is the value returned. *)
Definition main (fuel : nat) (debug scan : bool) (file : string)
           (i : input) : M Z :=
  match i with
  | Missing => die ("could not open: " ++ file ++ nl)
  | Directory root =>
      dump_live utilfdt_print_data fuel file root debug ;;;
      ret 0
  | Unreadable => die ("could not read: " ++ file ++ nl)
  | File m =>
      buf <- (if scan then scan_blob fuel m debug file
              else ret (buf_base m)) ;;
      dump_blob utilfdt_print_data fuel m buf debug ;;;
      ret 0
  end.

End Main.

(** The exit status of a run, when the process ended. *)
Definition exit_status (r : res Z) : option Z :=
  match r with
  | Ok n => Some n
  | Exit n => Some n
  | _ => None
  end.

(** ** Test vectors *)

(** Bytes written as numbers. *)
Definition B (l : list Z) : list byte := map byte_of_Z l.

(** A 32-bit and a 64-bit cell, big-endian. *)
Definition cell (v : Z) : list byte :=
  B [Z.shiftr v 24; Z.shiftr v 16; Z.shiftr v 8; v].

Definition cell64 (v : Z) : list byte :=
  (cell (Z.shiftr v 32) ++ cell v)%list.

Definition zeros (n : nat) : list byte := repeat x00 n.

Definition io0 : stdio := mkio "" "".

(** A renderer for the examples: the bytes of the span in hexadecimal. *)
Definition show_hex (v : list byte) : string :=
  " = [" ++ String.concat " " (map (fun b => Printf.x0 2 (byteZ b)) v) ++ "]".

(** Another renderer: the number of bytes of the span. *)
Definition show_len (v : list byte) : string :=
  " [" ++ Printf.d (Z.of_nat (List.length v)) ++ "]".

(** A blob: header, reservation map, structure block, strings block. *)
Definition mkblob (version : Z) (rsv structure strings : list byte)
  : list byte :=
  let size (l : list byte) := Z.of_nat (List.length l) in
  let off_rsv := 40 in
  let off_dt := off_rsv + size rsv in
  let off_str := off_dt + size structure in
  (cell FDT_MAGIC ++ cell (off_str + size strings) ++ cell off_dt
   ++ cell off_str ++ cell off_rsv ++ cell version ++ cell 2 ++ cell 0
   ++ cell (size strings) ++ cell (size structure)
   ++ rsv ++ structure ++ strings)%list.

(** The string [reg], with its terminator. *)
Definition str_reg : list byte := B [114; 101; 103; 0].

(** A version 15 blob of 100 bytes: the root node with one property of
    8 bytes, whose value is at offset 80 after 4 bytes of padding. *)
Definition blob15 : list byte :=
  mkblob 15 (zeros 16)
    (cell FDT_BEGIN_NODE ++ zeros 4
     ++ cell FDT_PROP ++ cell 8 ++ cell 0 ++ zeros 4
     ++ B [17; 34; 51; 68; 85; 102; 119; 136]
     ++ cell FDT_END_NODE ++ cell FDT_END)%list
    str_reg.

(** The blob as a whole file, and embedded 4 bytes into a file; the
    file image is at an address that is a multiple of 16. *)
Definition file_whole : buffer := mkbuf 4096 (blob15 ++ zeros 4)%list.
Definition file_embedded : buffer :=
  mkbuf 4096 (zeros 4 ++ blob15 ++ zeros 4)%list.

(** A version 17 blob whose structure block holds the tag 7 inside the
    root node. *)
Definition file_tag7 : buffer :=
  mkbuf 4096
    (mkblob 17 (zeros 16)
       (cell FDT_BEGIN_NODE ++ zeros 4 ++ cell 7 ++ cell FDT_END_NODE
        ++ cell FDT_END)%list
       str_reg).

(** Structure blocks that do not balance: a node closed but never
    opened, and a node opened but never closed. *)
Definition file_end_node_first : buffer :=
  mkbuf 4096
    (mkblob 17 (zeros 16) (cell FDT_END_NODE ++ cell FDT_END)%list str_reg).

Definition file_open_at_end : buffer :=
  mkbuf 4096
    (mkblob 17 (zeros 16)
       (cell FDT_BEGIN_NODE ++ zeros 4 ++ cell FDT_END)%list str_reg).

(** A reservation map with one entry and its terminator. *)
Definition rsv_one : buffer :=
  mkbuf 4096 (cell64 0x1000 ++ cell64 0x200 ++ cell64 0 ++ cell64 0)%list.

(** Files shorter than a header: the magic number and one more byte,
    and the first byte of the magic number alone. *)
Definition file_magic_only : buffer := mkbuf 4096 (B [0xd0; 0x0d; 0xfe; 0xed; 0]).
Definition file_one_byte : buffer := mkbuf 4096 (B [0xd0]).

(** A version 17 blob of 92 bytes whose root node holds the empty node
    [cpus]: the root's record is at offset 56, that of [cpus] at
    offset 64 and the first EndNode at offset 76.  The blob as a whole
    file, and one byte into a file. *)
Definition blob_cpus : list byte :=
  mkblob 17 (zeros 16)
    (cell FDT_BEGIN_NODE ++ zeros 4
     ++ cell FDT_BEGIN_NODE ++ B [99; 112; 117; 115; 0; 0; 0; 0]
     ++ cell FDT_END_NODE ++ cell FDT_END_NODE ++ cell FDT_END)%list
    str_reg.

Definition file_cpus : buffer := mkbuf 4096 (blob_cpus ++ zeros 4)%list.
Definition file_cpus_at_1 : buffer :=
  mkbuf 4096 (zeros 1 ++ blob_cpus ++ zeros 4)%list.

(** The characters of [cpus]. *)
Definition str_cpus_name : list byte := B [99; 112; 117; 115].

(** A live tree: one property and one empty child node. *)
Definition live_root : entry :=
  Dir "" [ Dir "." []; Dir ".." []; Dir "child" [];
           Reg "status" (plain 5 (B [111; 107; 97; 121; 0])) ].

(** ** The texts of [dump_blob], for the statements *)

(** The lines of the header summary, as the [printf] calls between
    the version marker and the reservation map give them. *)
Definition header_text (magic totalsize off_dt off_str off_mem_rsvmap version
                        last_comp_version boot_cpuid_phys size_dt_strings
                        size_dt_struct : Z) : string :=
  "// magic:" ++ tab ++ tab ++ "0x" ++ Printf.x magic ++ nl
  ++ "// totalsize:" ++ tab ++ tab ++ "0x" ++ Printf.x totalsize
  ++ " (" ++ Printf.d (to_int totalsize) ++ ")" ++ nl
  ++ "// off_dt_struct:" ++ tab ++ "0x" ++ Printf.x off_dt ++ nl
  ++ "// off_dt_strings:" ++ tab ++ "0x" ++ Printf.x off_str ++ nl
  ++ "// off_mem_rsvmap:" ++ tab ++ "0x" ++ Printf.x off_mem_rsvmap ++ nl
  ++ "// version:" ++ tab ++ tab ++ Printf.d (to_int version) ++ nl
  ++ "// last_comp_version:" ++ tab ++ Printf.d (to_int last_comp_version)
  ++ nl
  ++ (if version >=? 2
      then "// boot_cpuid_phys:" ++ tab ++ "0x" ++ Printf.x boot_cpuid_phys
           ++ nl
      else "")
  ++ (if version >=? 3
      then "// size_dt_strings:" ++ tab ++ "0x" ++ Printf.x size_dt_strings
           ++ nl
      else "")
  ++ (if version >=? 17
      then "// size_dt_struct:" ++ tab ++ "0x" ++ Printf.x size_dt_struct
           ++ nl
      else "")
  ++ nl.

(** The directive printed for one reservation. *)
Definition memreserve_text (e : Z * Z) : string :=
  "/memreserve/ " ++ Printf.x_alt (fst e) ++ " " ++ Printf.x_alt (snd e)
  ++ ";" ++ nl.

(** Texts one after the other. *)
Definition cat (l : list string) : string := fold_right append "" l.

(** ** Predicates on computations *)

(** [c] never ends the process with [exit]. *)
Definition no_exit {A} (c : M A) : Prop :=
  forall io n, fst (c io) <> Exit n.


(** [c] only adds to the two streams. *)
Definition writes_on {A} (c : M A) : Prop :=
  forall io, exists w e, snd (c io) = mkio (out io ++ w) (err io ++ e).

(** Induction on a directory tree, with the hypothesis for every entry
    of a directory. *)
Fixpoint entry_tree_ind (P : entry -> Prop)
         (HReg : forall d_name f, P (Reg d_name f))
         (HDir : forall d_name entries,
             Forall P entries -> P (Dir d_name entries))
         (HNoDir : forall d_name, P (NoDir d_name))
         (HOther : forall d_name, P (Other d_name))
         (e : entry) {struct e} : P e :=
  match e with
  | Reg d_name f => HReg d_name f
  | Dir d_name entries =>
      HDir d_name entries
           ((fix all (l : list entry) : Forall P l :=
               match l with
               | [] => Forall_nil P
               | x :: r =>
                   Forall_cons x (entry_tree_ind P HReg HDir HNoDir HOther x)
                               (all r)
               end) entries)
  | NoDir d_name => HNoDir d_name
  | Other d_name => HOther d_name
  end.

(** ** Further predicates and test vectors *)

(** [c1] and [c2] give the same result and write the same to standard
    error, whatever they write to standard output. *)
Definition same_but_out {A} (c1 c2 : M A) : Prop :=
  forall io1 io2,
    err io1 = err io2 ->
    fst (c1 io1) = fst (c2 io2) /\ err (snd (c1 io1)) = err (snd (c2 io2)).

(** The entries that the first loop of [dump_live_internal] takes. *)
Definition is_reg (e : entry) : bool :=
  match e with Reg _ _ => true | _ => false end.

(** The entries that its second loop takes. *)
Definition is_sub (e : entry) : bool :=
  match e with
  | Dir d_name _ | NoDir d_name => negb (is_dot d_name)
  | _ => false
  end.

(** A version 17 blob with a Nop record and a property of 3 bytes in
    the root node. *)
Definition file_nop : buffer :=
  mkbuf 4096
    (mkblob 17 (zeros 16)
       (cell FDT_BEGIN_NODE ++ zeros 4 ++ cell FDT_NOP
        ++ cell FDT_PROP ++ cell 3 ++ cell 0 ++ B [1; 2; 3; 0]
        ++ cell FDT_END_NODE ++ cell FDT_END)%list
       str_reg).

(** A file that starts with the magic number and an implausible header
    (version 99), with [blob15] behind it at offset 32. *)
Definition file_decoy : buffer :=
  mkbuf 4096
    (cell FDT_MAGIC ++ zeros 16 ++ cell 99 ++ zeros 8 ++ blob15
     ++ zeros 4)%list.

(** A file of 8 bytes whose only first byte of the magic number is
    among its last 4 bytes. *)
Definition file_late_magic : buffer := mkbuf 4096 (B [1; 2; 3; 4; 5; 0xd0; 7; 8]).

(** A file of 20 bytes, shorter than the part of the header that
    [dump_blob] reads first. *)
Definition file_short_header : buffer :=
  mkbuf 4096 (cell FDT_MAGIC ++ zeros 16)%list.

(** A reservation map without terminator. *)
Definition rsv_open : buffer :=
  mkbuf 4096 (cell64 0x1000 ++ cell64 0x200 ++ cell64 0x3000 ++ cell64 1)%list.

(** The characters of [reg]. *)
Definition str_reg_name : list byte := B [114; 101; 103].

(** [stat] gives the regular file the size of what [read] delivers,
    and [open] opens it. *)
Definition size_holds (f : regfile) : bool :=
  match f_size f with
  | Some st_size => (st_size =? Z.of_nat (List.length (f_bytes f))) && f_opens f
  | None => false
  end.

(** A tree in which every directory is opened and every regular file
    is opened and gives as many bytes as its size says. *)
Fixpoint sizes_hold (e : entry) : bool :=
  match e with
  | Reg _ f => size_holds f
  | Dir _ entries => forallb sizes_hold entries
  | NoDir _ => false
  | Other _ => true
  end.




(** A tree with a directory that is not opened, and one with a file
    on which [stat] fails. *)
Definition live_closed : entry :=
  Dir "" [ Reg "status" (plain 5 (B [111; 107; 97; 121; 0]));
           NoDir "secret"; Dir "child" [] ].

Definition live_no_stat : entry :=
  Dir "" [ Dir "child" [ Reg "gone" (mkfile None true [] false) ] ].

(** A listing in which a directory comes before a file. *)
Definition live_mixed : list entry :=
  [ Dir "." []; Dir "child" []; Other "link"; Dir ".." [];
    Reg "status" (plain 5 (B [111; 107; 97; 121; 0])) ].

(** * Properties *)

(** ** Strings and streams *)

Lemma append_assoc (a b c : string) : (a ++ b) ++ c = a ++ (b ++ c).
Proof.
  induction a as [|ch a IH]; simpl; [reflexivity|].
  now rewrite IH.
Qed.

Lemma append_nil_r (a : string) : a ++ "" = a.
Proof.
  induction a as [|ch a IH]; simpl; [reflexivity|].
  now rewrite IH.
Qed.

Lemma printf_run (s : string) (io : stdio) :
  printf s io = (Ok tt, mkio (out io ++ s) (err io)).
Proof. reflexivity. Qed.

Lemma dumpf_run (debug : bool) (s : string) (io : stdio) :
  dumpf debug s io = (Ok tt, mkio (out io ++ dbg debug s) (err io)).
Proof.
  destruct debug; simpl; [reflexivity|].
  unfold ret. rewrite append_nil_r. now destruct io.
Qed.

Lemma bind_ok {A B} (c : M A) (k : A -> M B) (io io' : stdio) (a : A) :
  c io = (Ok a, io') -> bind c k io = k a io'.
Proof. intros H. unfold bind. now rewrite H. Qed.

Lemma bind_rd_some {A B} (o : option A) (a : A) (k : A -> M B) (io : stdio) :
  o = Some a -> bind (rd o) k io = k a io.
Proof. intros ->. reflexivity. Qed.

Lemma bind_rd_none {A B} (o : option A) (k : A -> M B) (io : stdio) :
  o = None -> bind (rd o) k io = (Fault, io).
Proof. intros ->. reflexivity. Qed.

Lemma bind_printf {B} (s : string) (k : unit -> M B) (io : stdio) :
  bind (printf s) k io = k tt (mkio (out io ++ s) (err io)).
Proof. reflexivity. Qed.

Lemma bind_dumpf {B} (debug : bool) (s : string) (k : unit -> M B)
      (io : stdio) :
  bind (dumpf debug s) k io = k tt (mkio (out io ++ dbg debug s) (err io)).
Proof. apply bind_ok, dumpf_run. Qed.

(** ** Alignment *)

Lemma land_high_mask (k y : Z) :
  0 <= k <= 64 -> 0 <= y < 2 ^ 64 ->
  Z.land y (ulong (Z.lnot (2 ^ k - 1))) = y / 2 ^ k * 2 ^ k.
Proof.
  intros Hk Hy. unfold ulong.
  rewrite <- (Z.land_ones _ 64) by lia.
  rewrite Z.land_assoc, (Z.land_comm y), <- Z.land_assoc.
  rewrite (Z.land_ones y 64) by lia.
  rewrite (Z.mod_small y) by lia.
  rewrite Z.land_comm.
  replace (2 ^ k - 1) with (Z.ones k)
    by (rewrite Z.ones_equiv; apply Z.sub_1_r).
  rewrite <- Z.ldiff_land, Z.ldiff_ones_r by lia.
  rewrite Z.shiftr_div_pow2, Z.shiftl_mul_pow2 by lia.
  reflexivity.
Qed.

Lemma ALIGN_pow2 (k x : Z) :
  0 <= k <= 64 -> 0 <= x -> x + (2 ^ k - 1) < 2 ^ 64 ->
  ALIGN x (2 ^ k) = (x + (2 ^ k - 1)) / 2 ^ k * 2 ^ k.
Proof.
  intros Hk Hx Hlt. unfold ALIGN.
  assert (0 < 2 ^ k) by (apply Z.pow_pos_nonneg; lia).
  rewrite land_high_mask; [|lia|unfold ulong; apply Z.mod_pos_bound; lia].
  unfold ulong. rewrite Z.mod_small by lia. reflexivity.
Qed.

Lemma round_up_bounds (a y : Z) :
  0 < a -> let r := (y + (a - 1)) / a * a in
  r mod a = 0 /\ y <= r < y + a.
Proof.
  intros Ha r. subst r. split.
  - apply Z.mod_mul. lia.
  - pose proof (Z.div_mod (y + (a - 1)) a ltac:(lia)) as E.
    pose proof (Z.mod_pos_bound (y + (a - 1)) a Ha) as Hb.
    lia.
Qed.

(** [PALIGN(p, 4)] is the first multiple of 4 at or after [p]. *)
Lemma PALIGN_4 (p : Z) :
  0 <= p -> p + 3 < 2 ^ 64 ->
  PALIGN p 4 mod 4 = 0 /\ p <= PALIGN p 4 < p + 4.
Proof.
  intros H0 H1. unfold PALIGN, ulong.
  rewrite (Z.mod_small p) by (split; [assumption|]; lia).
  pose proof (ALIGN_pow2 2 p) as E. change (2 ^ 2) with 4 in E.
  rewrite E by lia.
  apply (round_up_bounds 4 p). lia.
Qed.

(** [PALIGN(p, 8)] is the first multiple of 8 at or after [p]. *)
Lemma PALIGN_8 (p : Z) :
  0 <= p -> p + 7 < 2 ^ 64 ->
  PALIGN p 8 mod 8 = 0 /\ p <= PALIGN p 8 < p + 8.
Proof.
  intros H0 H1. unfold PALIGN, ulong.
  rewrite (Z.mod_small p) by (split; [assumption|]; lia).
  pose proof (ALIGN_pow2 3 p) as E. change (2 ^ 3) with 8 in E.
  rewrite E by lia.
  apply (round_up_bounds 8 p). lia.
Qed.

(** ** The structure-block walker *)

Section WalkerFacts.

Variable utilfdt_print_data : list byte -> string.
Variable m : buffer.
Variable debug : bool.
Variables blob_off p_strings version : Z.

(** The line that diagnostic mode logs for the tag read at [p]. *)
Let tag_line (p tag : Z) : string :=
  dbg debug (Printf.x0 4 (ulong (p + 4 - blob_off - 4)) ++ ": tag: 0x"
             ++ Printf.x0 8 tag ++ " (" ++ tagname tag ++ ")" ++ nl).

(** On a BeginNode tag the walker reads the name that follows the
    tag, moves the cursor to the first address that is a multiple of 4
    at or after the end of the name's terminator, prints the name ([/]
    for the empty name) with an opening brace at the indentation of
    the current depth, and goes on one level deeper.  The boundary is
    one of the cursor's address: it is one of the offset in the blob
    where the blob starts at a multiple of 4. *)
Lemma begin_node_step (p depth : Z) (s : list byte) (io : stdio) :
  load32 m p = Some FDT_BEGIN_NODE ->
  cstring m (p + 4) = Some s ->
  0 <= p -> p + 4 + Z.of_nat (List.length s) + 1 + 3 < 2 ^ 64 ->
  let past := p + 4 + Z.of_nat (List.length s) + 1 in
  let p' := PALIGN past 4 in
  walk_step utilfdt_print_data m debug blob_off p_strings version
            p depth io =
    (Ok (Continue p' (depth + 1)),
     mkio (out io ++ tag_line p FDT_BEGIN_NODE
           ++ Printf.pad (depth * shift)
           ++ match s with [] => "/" | _ => Printf.s s end ++ " {" ++ nl)
          (err io))
  /\ p' mod 4 = 0
  /\ past <= p' < past + 4
  /\ (forall blob, blob mod 4 = 0 -> (p' - blob) mod 4 = 0).
Proof.
  intros Htag Hs Hp Hmax past p'.
  assert (Ha : p' mod 4 = 0 /\ past <= p' < past + 4)
    by (apply PALIGN_4; subst past; lia).
  split; [|split; [apply Ha|split; [apply Ha|]]];
    [|intros blob Hb; rewrite Zminus_mod, (proj1 Ha), Hb; reflexivity].
  unfold walk_step.
  rewrite (bind_rd_some _ _ _ _ Htag).
  change (FDT_BEGIN_NODE =? FDT_END) with false. cbv iota.
  rewrite bind_dumpf.
  change (FDT_BEGIN_NODE =? FDT_BEGIN_NODE) with true. cbv iota.
  rewrite (bind_rd_some _ _ _ _ Hs).
  rewrite bind_printf. unfold ret. cbn [out err].
  rewrite append_assoc. reflexivity.
Qed.

(** C3, as the code has it: the walker keeps no check of balance.  An
    EndNode tag lowers the depth by one whatever it was, also below
    zero, prints the closing line and goes on; an End tag leaves the
    loop at any depth, and nothing is written for it. *)
Theorem end_tags_unchecked (p depth : Z) (io : stdio) :
  (load32 m p = Some FDT_END_NODE ->
   walk_step utilfdt_print_data m debug blob_off p_strings version
            p depth io =
     (Ok (Continue (p + 4) (depth - 1)),
      mkio (out io ++ tag_line p FDT_END_NODE
            ++ Printf.pad ((depth - 1) * shift) ++ "};" ++ nl)
           (err io)))
  /\ (load32 m p = Some FDT_END ->
      forall fuel,
        walk utilfdt_print_data m debug blob_off p_strings version
             (S fuel) p depth io = (Ok (p + 4, depth), io)).
Proof.
  split.
  - intros Htag. unfold walk_step.
    rewrite (bind_rd_some _ _ _ _ Htag).
    change (FDT_END_NODE =? FDT_END) with false. cbv iota.
    rewrite bind_dumpf.
    change (FDT_END_NODE =? FDT_BEGIN_NODE) with false.
    change (FDT_END_NODE =? FDT_END_NODE) with true. cbv iota.
    rewrite bind_printf. unfold ret. cbn [out err].
    rewrite append_assoc. reflexivity.
  - intros Htag fuel. cbn [walk]. unfold walk_step.
    rewrite (bind_ok _ _ io io (Leave (p + 4) depth)); [reflexivity|].
    rewrite (bind_rd_some _ _ _ _ Htag). reflexivity.
Qed.

(** A tag outside the known set: the diagnostic goes to standard
    error and the loop is left at once. *)
Lemma unknown_tag_leaves (p depth tag : Z) (io : stdio) :
  load32 m p = Some tag ->
  tag <> FDT_BEGIN_NODE -> tag <> FDT_END_NODE -> tag <> FDT_PROP ->
  tag <> FDT_NOP -> tag <> FDT_END ->
  forall fuel,
    walk utilfdt_print_data m debug blob_off p_strings version
         (S fuel) p depth io =
      (Ok (p + 4, depth),
       mkio (out io ++ tag_line p tag)
            (err io ++ Printf.pad (depth * shift) ++ " ** Unknown tag 0x"
             ++ Printf.x0 8 tag ++ nl)).
Proof.
  intros Htag H1 H2 H3 H4 H9 fuel.
  apply Z.eqb_neq in H1, H2, H3, H4, H9.
  cbn [walk]. unfold walk_step.
  rewrite (bind_ok _ _ io
             (mkio (out io ++ tag_line p tag)
                   (err io ++ Printf.pad (depth * shift)
                    ++ " ** Unknown tag 0x" ++ Printf.x0 8 tag ++ nl))
             (Leave (p + 4) depth)); [reflexivity|].
  rewrite (bind_rd_some _ _ _ _ Htag).
  rewrite H9. rewrite bind_dumpf. rewrite H1, H2, H4, H3. reflexivity.
Qed.

(** After [k] turns that go on, the loop is where they leave it. *)
Lemma walk_after (k : nat) (p depth : Z) (io : stdio) (p' depth' : Z)
      (io' : stdio) :
  walks utilfdt_print_data m debug blob_off p_strings version
        k p depth io p' depth' io' ->
  forall fuel,
    walk utilfdt_print_data m debug blob_off p_strings version
         (k + fuel) p depth io
    = walk utilfdt_print_data m debug blob_off p_strings version
           fuel p' depth' io'.
Proof.
  induction 1 as [|k p depth io p1 depth1 io1 p2 depth2 io2 Hstep _ IH];
    intros fuel; [reflexivity|].
  cbn [Nat.add walk].
  rewrite (bind_ok _ _ _ _ _ Hstep). apply IH.
Qed.

End WalkerFacts.

(** ** Computations that cannot exit, and that only add output *)

Lemma no_exit_bind {A B} (c : M A) (k : A -> M B) :
  no_exit c -> (forall a, no_exit (k a)) -> no_exit (bind c k).
Proof.
  intros Hc Hk io n. unfold bind. specialize (Hc io).
  destruct (c io) as [[a| |n'|] io']; simpl in *;
    [apply Hk | discriminate | | discriminate].
  intros _. now apply (Hc n').
Qed.

Lemma no_exit_ret {A} (a : A) : no_exit (ret a).
Proof. intros io n. discriminate. Qed.

Lemma no_exit_rd {A} (o : option A) : no_exit (rd o).
Proof. intros io n. destruct o; discriminate. Qed.

Lemma no_exit_printf (s : string) : no_exit (printf s).
Proof. intros io n. discriminate. Qed.

Lemma no_exit_eprintf (s : string) : no_exit (eprintf s).
Proof. intros io n. discriminate. Qed.

Lemma no_exit_dumpf (debug : bool) (s : string) : no_exit (dumpf debug s).
Proof. intros io n. destruct debug; discriminate. Qed.

Lemma no_exit_out_of_fuel {A} : no_exit (fun io => (@OutOfFuel A, io)).
Proof. intros io n. discriminate. Qed.

Ltac no_exit_step :=
  first
    [ apply no_exit_ret | apply no_exit_rd | apply no_exit_printf
    | apply no_exit_eprintf | apply no_exit_dumpf
    | apply no_exit_out_of_fuel
    | apply no_exit_bind; [|intros ?]
    | match goal with
      | |- no_exit (if ?b then _ else _) => destruct b
      | |- no_exit (match ?x with _ => _ end) => destruct x
      end ].

Lemma writes_on_bind {A B} (c : M A) (k : A -> M B) :
  writes_on c -> (forall a, writes_on (k a)) -> writes_on (bind c k).
Proof.
  intros Hc Hk io. unfold bind. destruct (Hc io) as (w & e & E).
  destruct (c io) as [[a| |n'|] io']; simpl in E; subst io';
    try (exists w, e; reflexivity).
  destruct (Hk a (mkio (out io ++ w) (err io ++ e))) as (w' & e' & E').
  exists (w ++ w'), (e ++ e'). rewrite E'. cbn [out err].
  now rewrite !append_assoc.
Qed.

Lemma writes_on_nothing {A} (r : res A) : writes_on (fun io => (r, io)).
Proof.
  intros io. exists "", "". cbn [snd]. rewrite !append_nil_r. now destruct io.
Qed.

Lemma writes_on_ret {A} (a : A) : writes_on (ret a).
Proof. apply writes_on_nothing. Qed.

Lemma writes_on_rd {A} (o : option A) : writes_on (rd o).
Proof. destruct o; apply writes_on_nothing. Qed.

Lemma writes_on_printf (s : string) : writes_on (printf s).
Proof.
  intros io. exists s, "". cbn [snd out err printf]. now rewrite append_nil_r.
Qed.

Lemma writes_on_eprintf (s : string) : writes_on (eprintf s).
Proof.
  intros io. exists "", s. cbn [snd out err eprintf]. now rewrite append_nil_r.
Qed.

Lemma writes_on_die {A} (s : string) : writes_on (@die A s).
Proof.
  intros io. exists "", s. cbn [snd out err die]. now rewrite append_nil_r.
Qed.

Lemma writes_on_dumpf (debug : bool) (s : string) : writes_on (dumpf debug s).
Proof.
  destruct debug; [apply writes_on_printf | apply writes_on_ret].
Qed.

Ltac writes_on_step :=
  first
    [ apply writes_on_ret | apply writes_on_rd | apply writes_on_printf
    | apply writes_on_eprintf | apply writes_on_dumpf | apply writes_on_die
    | apply writes_on_nothing
    | apply writes_on_bind; [|intros ?]
    | match goal with
      | |- writes_on (if ?b then _ else _) => destruct b
      | |- writes_on (match ?x with _ => _ end) => destruct x
      end ].

Section DecoderFacts.

Variable utilfdt_print_data : list byte -> string.

Lemma rsvmap_loop_no_exit (fuel : nat) (m : buffer) (q i : Z) :
  no_exit (rsvmap_loop fuel m q i).
Proof.
  revert i. induction fuel as [|f IH]; intros i; cbn [rsvmap_loop];
    repeat no_exit_step. apply IH.
Qed.

Lemma rsvmap_loop_writes_on (fuel : nat) (m : buffer) (q i : Z) :
  writes_on (rsvmap_loop fuel m q i).
Proof.
  revert i. induction fuel as [|f IH]; intros i; cbn [rsvmap_loop];
    repeat writes_on_step. apply IH.
Qed.

Lemma walk_step_no_exit m debug blob_off p_strings version p depth :
  no_exit (walk_step utilfdt_print_data m debug blob_off p_strings version
                     p depth).
Proof. unfold walk_step, walk_prop. repeat no_exit_step. Qed.

Lemma walk_step_writes_on m debug blob_off p_strings version p depth :
  writes_on (walk_step utilfdt_print_data m debug blob_off p_strings version
                       p depth).
Proof. unfold walk_step, walk_prop. repeat writes_on_step. Qed.

Lemma walk_no_exit m debug blob_off p_strings version fuel p depth :
  no_exit (walk utilfdt_print_data m debug blob_off p_strings version
                fuel p depth).
Proof.
  revert p depth. induction fuel as [|f IH]; intros p depth; cbn [walk].
  - apply no_exit_out_of_fuel.
  - apply no_exit_bind; [apply walk_step_no_exit|].
    intros [p' d'|p' d']; [apply IH | apply no_exit_ret].
Qed.

Lemma walk_writes_on m debug blob_off p_strings version fuel p depth :
  writes_on (walk utilfdt_print_data m debug blob_off p_strings version
                  fuel p depth).
Proof.
  revert p depth. induction fuel as [|f IH]; intros p depth; cbn [walk].
  - apply writes_on_nothing.
  - apply writes_on_bind; [apply walk_step_writes_on|].
    intros [p' d'|p' d']; [apply IH | apply writes_on_ret].
Qed.

Lemma dump_header_no_exit m blob a b c d e :
  no_exit (dump_header m blob a b c d e).
Proof. unfold dump_header. repeat no_exit_step. Qed.

Lemma dump_blob_no_exit fuel m blob debug :
  no_exit (dump_blob utilfdt_print_data fuel m blob debug).
Proof.
  unfold dump_blob.
  repeat first [ apply dump_header_no_exit | apply rsvmap_loop_no_exit
               | apply walk_no_exit | no_exit_step ].
Qed.

End DecoderFacts.

(** ** The header summary and the first line *)

Lemma gated_field_run (b : bool) (o : option Z) (v : Z) (f : Z -> string)
      (io : stdio) :
  o = Some v ->
  (if b then x <- rd o ;; printf (f x) else ret tt) io =
    (Ok tt, mkio (out io ++ (if b then f v else "")) (err io)).
Proof.
  intros ->. destruct b; [reflexivity|].
  unfold ret. rewrite append_nil_r. now destruct io.
Qed.

Lemma dump_header_run (m : buffer) (blob : Z)
      (magic totalsize off_dt off_str off_rsv version lc boot sstr sstruct : Z)
      (io : stdio) :
  hdr m blob o_magic = Some magic ->
  hdr m blob o_last_comp_version = Some lc ->
  hdr m blob o_boot_cpuid_phys = Some boot ->
  hdr m blob o_size_dt_strings = Some sstr ->
  hdr m blob o_size_dt_struct = Some sstruct ->
  dump_header m blob off_rsv off_dt off_str version totalsize io =
    (Ok tt,
     mkio (out io ++ header_text magic totalsize off_dt off_str off_rsv
                                 version lc boot sstr sstruct)
          (err io)).
Proof.
  intros Hm Hl Hb Hs Ht. unfold dump_header.
  rewrite (bind_rd_some _ _ _ _ Hm). rewrite !bind_printf.
  rewrite (bind_rd_some _ _ _ _ Hl). rewrite !bind_printf.
  rewrite (bind_ok _ _ _ _ tt (gated_field_run _ _ _
             (fun x => "// boot_cpuid_phys:" ++ tab ++ "0x" ++ Printf.x x ++ nl)
             _ Hb)).
  rewrite (bind_ok _ _ _ _ tt (gated_field_run _ _ _
             (fun x => "// size_dt_strings:" ++ tab ++ "0x" ++ Printf.x x ++ nl)
             _ Hs)).
  rewrite (bind_ok _ _ _ _ tt (gated_field_run _ _ _
             (fun x => "// size_dt_struct:" ++ tab ++ "0x" ++ Printf.x x ++ nl)
             _ Ht)).
  rewrite printf_run. cbn [out err]. unfold header_text.
  rewrite !append_assoc. reflexivity.
Qed.

Section BlobFacts.

Variable utilfdt_print_data : list byte -> string.

(** After the five reads of its initialisers, [dump_blob] prints the
    version marker and goes on. *)
Lemma dump_blob_start (fuel : nat) (m : buffer) (blob : Z) (debug : bool)
      (off_rsv off_dt off_str version totalsize : Z) (io : stdio) :
  hdr m blob o_off_mem_rsvmap = Some off_rsv ->
  hdr m blob o_off_dt_struct = Some off_dt ->
  hdr m blob o_off_dt_strings = Some off_str ->
  hdr m blob o_version = Some version ->
  hdr m blob o_totalsize = Some totalsize ->
  dump_blob utilfdt_print_data fuel m blob debug io =
    (dump_header m blob off_rsv off_dt off_str version totalsize ;;;
     rsvmap_loop fuel m (blob + off_rsv) 0 ;;;
     walk utilfdt_print_data m debug (ulong blob) (blob + off_str) version
          fuel (blob + off_dt) 0 ;;;
     ret tt) (mkio (out io ++ "/dts-v1/;" ++ nl) (err io)).
Proof.
  intros H1 H2 H3 H4 H5. unfold dump_blob.
  rewrite (bind_rd_some _ _ _ _ H1), (bind_rd_some _ _ _ _ H2),
    (bind_rd_some _ _ _ _ H3), (bind_rd_some _ _ _ _ H4),
    (bind_rd_some _ _ _ _ H5).
  rewrite bind_printf. reflexivity.
Qed.

Lemma dump_header_writes_on m blob a b c d e :
  writes_on (dump_header m blob a b c d e).
Proof. unfold dump_header. repeat writes_on_step. Qed.

Lemma dump_blob_writes_on fuel m blob debug :
  writes_on (dump_blob utilfdt_print_data fuel m blob debug).
Proof.
  unfold dump_blob.
  repeat first [ apply dump_header_writes_on | apply rsvmap_loop_writes_on
               | apply walk_writes_on | writes_on_step ].
Qed.

(** C6, as the code has it: the header summary is printed whether or
    not diagnostic mode is on.  For a blob whose header is inside the
    buffer, standard output gets the version marker line and then the
    summary lines, the three trailer fields gated on the version, for
    [debug = false] as for [debug = true]. *)
Theorem header_summary_in_any_mode (fuel : nat) (m : buffer) (blob : Z)
        (debug : bool)
        (magic totalsize off_dt off_str off_rsv version lc boot sstr
               sstruct : Z) (io : stdio) :
  hdr m blob o_magic = Some magic ->
  hdr m blob o_totalsize = Some totalsize ->
  hdr m blob o_off_dt_struct = Some off_dt ->
  hdr m blob o_off_dt_strings = Some off_str ->
  hdr m blob o_off_mem_rsvmap = Some off_rsv ->
  hdr m blob o_version = Some version ->
  hdr m blob o_last_comp_version = Some lc ->
  hdr m blob o_boot_cpuid_phys = Some boot ->
  hdr m blob o_size_dt_strings = Some sstr ->
  hdr m blob o_size_dt_struct = Some sstruct ->
  exists rest,
    out (snd (dump_blob utilfdt_print_data fuel m blob debug io)) =
      out io ++ "/dts-v1/;" ++ nl
      ++ header_text magic totalsize off_dt off_str off_rsv version lc
                     boot sstr sstruct
      ++ rest.
Proof.
  intros Hm Hts Hdt Hstr Hrsv Hv Hl Hb Hs Ht.
  rewrite (dump_blob_start _ _ _ _ _ _ _ _ _ _ Hrsv Hdt Hstr Hv Hts).
  rewrite (bind_ok _ _ _ _ tt
             (dump_header_run _ _ _ _ _ _ _ _ _ _ _ _ _ Hm Hl Hb Hs Ht)).
  match goal with
  | |- context [snd (?c ?i)] =>
      assert (W : writes_on c)
        by (repeat first [ apply rsvmap_loop_writes_on
                         | apply walk_writes_on | writes_on_step ]);
      destruct (W i) as (w & e & E); rewrite E
  end.
  exists w. cbn [out]. rewrite !append_assoc. reflexivity.
Qed.

End BlobFacts.

(** ** The live tree *)

Section LiveFacts.

Variable utilfdt_print_data : list byte -> string.





End LiveFacts.

(** ** [main] *)

Lemma plausible_writes_on m p this_len : writes_on (plausible m p this_len).
Proof. unfold plausible. repeat writes_on_step. Qed.

Lemma scan_loop_writes_on fuel m debug file buf endp p :
  writes_on (scan_loop fuel m debug file buf endp p).
Proof.
  revert p. induction fuel as [|f IH]; intros p; cbn [scan_loop];
    repeat first [ apply plausible_writes_on | apply IH | writes_on_step ].
Qed.

Lemma writes_on_out {A} (c : M A) (io : stdio) :
  writes_on c -> exists rest, out (snd (c io)) = out io ++ rest.
Proof. intros W. destruct (W io) as (w & e & E). exists w. now rewrite E. Qed.

Section MainFacts.

Variable utilfdt_print_data : list byte -> string.

(** A file decoded without the scan never ends the process with a
    failure status. *)
Lemma main_file_status (fuel : nat) (debug : bool) (file : string)
      (m : buffer) (io : stdio) (n : Z) :
  exit_status
    (fst (main utilfdt_print_data fuel debug false file (File m) io))
  = Some n ->
  n = 0.
Proof.
  cbn [main]. unfold bind at 1. cbn [ret]. unfold bind.
  pose proof (dump_blob_no_exit utilfdt_print_data fuel m (buf_base m)
                                debug io) as NE.
  destruct (dump_blob utilfdt_print_data fuel m (buf_base m) debug io)
    as [[[]| |n'|] io']; cbn; intros E; try discriminate.
  - now inversion E.
  - exfalso. now apply (NE n').
Qed.

(** C2, as the code has it: on a tag outside the known set the walker
    writes the tag value, and no offset, to standard error and leaves
    the loop at once, with no further read; standard output only gets
    the tag line of diagnostic mode.  [dump_blob] then returns to
    [main], which returns 0: whenever a run, with the scan or without
    it, comes to read such a tag after [k] records, the process ends
    with status 0 and with nothing written after the diagnostic. *)
Theorem unknown_tag_returns (m : buffer) (debug : bool)
        (blob_off p_strings version p depth tag : Z) (io : stdio) :
  load32 m p = Some tag ->
  tag <> FDT_BEGIN_NODE -> tag <> FDT_END_NODE -> tag <> FDT_PROP ->
  tag <> FDT_NOP -> tag <> FDT_END ->
  (forall fuel,
      walk utilfdt_print_data m debug blob_off p_strings version
           (S fuel) p depth io =
        (Ok (p + 4, depth),
         mkio (out io
               ++ dbg debug
                    (Printf.x0 4 (ulong (p + 4 - blob_off - 4))
                     ++ ": tag: 0x" ++ Printf.x0 8 tag
                     ++ " (" ++ tagname tag ++ ")" ++ nl))
              (err io ++ Printf.pad (depth * shift) ++ " ** Unknown tag 0x"
               ++ Printf.x0 8 tag ++ nl)))
  /\ (forall (fuel k : nat) (scan : bool) (file : string)
             (io0 io1 io2 : stdio) (blob off_rsv off_dt off_str totalsize : Z),
         (if scan then scan_blob fuel m debug file else ret (buf_base m)) io0
         = (Ok blob, io1) ->
         hdr m blob o_off_mem_rsvmap = Some off_rsv ->
         hdr m blob o_off_dt_struct = Some off_dt ->
         hdr m blob o_off_dt_strings = Some off_str ->
         hdr m blob o_version = Some version ->
         hdr m blob o_totalsize = Some totalsize ->
         blob_off = ulong blob ->
         p_strings = blob + off_str ->
         (dump_header m blob off_rsv off_dt off_str version totalsize ;;;
          rsvmap_loop fuel m (blob + off_rsv) 0)
           (mkio (out io1 ++ "/dts-v1/;" ++ nl) (err io1))
         = (Ok tt, io2) ->
         walks utilfdt_print_data m debug blob_off p_strings version
               k (blob + off_dt) 0 io2 p depth io ->
         (k < fuel)%nat ->
         main utilfdt_print_data fuel debug scan file (File m) io0 =
           (Ok 0,
            mkio (out io
                  ++ dbg debug
                       (Printf.x0 4 (ulong (p + 4 - blob_off - 4))
                        ++ ": tag: 0x" ++ Printf.x0 8 tag
                        ++ " (" ++ tagname tag ++ ")" ++ nl))
                 (err io ++ Printf.pad (depth * shift)
                  ++ " ** Unknown tag 0x" ++ Printf.x0 8 tag ++ nl))).
Proof.
  intros Htag H1 H2 H3 H4 H9. split.
  - intros fuel. now apply unknown_tag_leaves.
  - intros fuel k scan file io0 io1 io2 blob off_rsv off_dt off_str totalsize
           Hscan Hrsv Hdt Hstr Hv Hts Eoff Estr Hhead Hwalks Hk.
    subst blob_off p_strings.
    cbn [main]. rewrite (bind_ok _ _ _ _ _ Hscan).
    unfold bind at 1.
    rewrite (dump_blob_start _ _ _ _ _ _ _ _ _ _ _ Hrsv Hdt Hstr Hv Hts).
    unfold bind at 1 in Hhead.
    unfold bind at 1.
    destruct (dump_header m blob off_rsv off_dt off_str version totalsize
                          (mkio (out io1 ++ "/dts-v1/;" ++ nl) (err io1)))
      as [[[]| |n'|] ioh]; try discriminate.
    unfold bind at 1. rewrite Hhead.
    replace fuel with (k + S (fuel - S k))%nat by lia.
    unfold bind at 1.
    rewrite (walk_after _ _ _ _ _ _ _ _ _ _ _ _ _ Hwalks).
    rewrite (unknown_tag_leaves _ _ _ _ _ _ _ _ _ _ Htag H1 H2 H3 H4 H9).
    reflexivity.
Qed.

End MainFacts.

(** ** The reservation map *)

Lemma rsvmap_loop_from (m : buffer) (q : Z) (pairs : list (Z * Z)) :
  forall (fuel : nat) (i : Z) (io : stdio),
    (forall j a s,
        nth_error pairs j = Some (a, s) ->
        load64 m (q + 16 * (i + Z.of_nat j)) = Some a
        /\ load64 m (q + 16 * (i + Z.of_nat j) + 8) = Some s
        /\ ~ (a = 0 /\ s = 0)) ->
    load64 m (q + 16 * (i + Z.of_nat (List.length pairs))) = Some 0 ->
    load64 m (q + 16 * (i + Z.of_nat (List.length pairs)) + 8) = Some 0 ->
    (List.length pairs < fuel)%nat ->
    rsvmap_loop fuel m q i io =
      (Ok tt, mkio (out io ++ cat (map memreserve_text pairs)) (err io)).
Proof.
  induction pairs as [|[a s] r IH]; intros fuel i io Hent Ha0 Hs0 Hfuel;
    (destruct fuel as [|f]; [inversion Hfuel|]); cbn [rsvmap_loop].
  - cbn [List.length] in Ha0, Hs0. rewrite Z.add_0_r in Ha0, Hs0.
    rewrite (bind_rd_some _ _ _ _ Ha0), (bind_rd_some _ _ _ _ Hs0).
    cbn. unfold ret. rewrite append_nil_r. now destruct io.
  - destruct (Hent O a s eq_refl) as (La & Ls & Hnz).
    cbn [Z.of_nat] in La, Ls. rewrite Z.add_0_r in La, Ls.
    rewrite (bind_rd_some _ _ _ _ La), (bind_rd_some _ _ _ _ Ls).
    assert (E : (a =? 0) && (s =? 0) = false).
    { destruct (Z.eqb_spec a 0), (Z.eqb_spec s 0); try reflexivity.
      now destruct Hnz. }
    rewrite E. rewrite bind_printf.
    rewrite (IH f (i + 1)).
    + cbn [out err map cat fold_right]. fold (cat (map memreserve_text r)).
      unfold memreserve_text at 2. cbn [fst snd].
      now rewrite !append_assoc.
    + intros j a' s' Hj.
      replace (i + 1 + Z.of_nat j) with (i + Z.of_nat (S j)) by lia.
      now apply Hent.
    + replace (i + 1 + Z.of_nat (List.length r))
        with (i + Z.of_nat (List.length ((a, s) :: r)))
        by (cbn [List.length]; lia).
      exact Ha0.
    + replace (i + 1 + Z.of_nat (List.length r))
        with (i + Z.of_nat (List.length ((a, s) :: r)))
        by (cbn [List.length]; lia).
      exact Hs0.
    + cbn [List.length] in Hfuel. lia.
Qed.

(** C4: the reader takes the (address, size) pairs, 64-bit big-endian,
    one after the other from the offset the header gives, prints one
    hexadecimal [/memreserve/] directive for each pair up to the first
    pair that is zero in both halves, and stops there without a
    directive for it. *)
Theorem rsvmap_stops_at_sentinel (m : buffer) (p_rsvmap : Z)
        (pairs : list (Z * Z)) (fuel : nat) (io : stdio) :
  (forall j a s,
      nth_error pairs j = Some (a, s) ->
      load64 m (p_rsvmap + 16 * Z.of_nat j) = Some a
      /\ load64 m (p_rsvmap + 16 * Z.of_nat j + 8) = Some s
      /\ ~ (a = 0 /\ s = 0)) ->
  load64 m (p_rsvmap + 16 * Z.of_nat (List.length pairs)) = Some 0 ->
  load64 m (p_rsvmap + 16 * Z.of_nat (List.length pairs) + 8) = Some 0 ->
  (List.length pairs < fuel)%nat ->
  rsvmap_loop fuel m p_rsvmap 0 io =
    (Ok tt, mkio (out io ++ cat (map memreserve_text pairs)) (err io)).
Proof.
  intros Hent Ha0 Hs0 Hfuel. apply rsvmap_loop_from; assumption.
Qed.

(** ** Regular files of the live tree *)

Lemma read_loop_done (fuel : nat) (new_path : string) (fails : bool)
      (file buf : list byte) (io : stdio) :
  read_loop fuel new_path fails file 0 buf io = (Ok buf, io).
Proof. destruct fuel; reflexivity. Qed.

Lemma read_loop_full (fuel : nat) (new_path : string) (fails : bool)
      (file buf : list byte) (left : Z) (io : stdio) :
  0 <= left <= Z.of_nat (List.length file) ->
  read_loop (S fuel) new_path fails file left buf io =
    (Ok (buf ++ firstn (Z.to_nat left) file)%list, io).
Proof.
  intros Hl. cbn [read_loop]. destruct (left >? 0) eqn:E.
  - destruct file as [|b r]; [cbn [List.length] in Hl; lia|].
    rewrite Bool.andb_false_r.
    rewrite firstn_length_le by lia. rewrite Z2Nat.id by lia.
    rewrite Z.sub_diag. apply read_loop_done.
  - assert (left = 0) by lia. subst left. cbn [Z.to_nat firstn].
    now rewrite app_nil_r.
Qed.

Section LiveFileFacts.

Variable utilfdt_print_data : list byte -> string.

(** A regular file that [stat] and [open] serve and that delivers the
    chunk: the line that the first loop prints for it. *)
Lemma dump_live_file_run (fuel : nat) (path d_name : string) (st_size : Z)
      (content : list byte) (fails : bool) (depth : Z) (io : stdio) :
  (0 < fuel)%nat ->
  0 <= st_size ->
  Z.min st_size 4096 <= Z.of_nat (List.length content) ->
  dump_live_file utilfdt_print_data fuel path d_name
                 (mkfile (Some st_size) true content fails) depth io =
    (Ok tt,
     mkio (out io ++ Printf.pad (depth * shift) ++ d_name
           ++ (if st_size >? 4096 then " (trunc)" else "")
           ++ utilfdt_print_data
                (firstn (Z.to_nat (Z.min st_size 4096)) content)
           ++ ";" ++ nl)
          (err io)).
Proof.
  intros Hfuel Hsz Hlen.
  destruct fuel as [|f]; [inversion Hfuel|].
  unfold dump_live_file. cbn [f_size f_opens f_bytes f_fails].
  rewrite bind_printf.
  unfold bind at 1. cbn [ret]. unfold bind at 1. cbn [ret].
  change buf_alloc with 4096.
  assert (Ec : (if st_size >? 4096 then 4096 else st_size)
               = Z.min st_size 4096)
    by (destruct (Z.gtb_spec st_size 4096); lia).
  rewrite Ec.
  set (chunk := Z.min st_size 4096) in *.
  assert (Hc : 0 <= chunk <= Z.of_nat (List.length content)) by lia.
  rewrite (bind_ok _ _ _ _ _ (read_loop_full f _ fails content [] chunk _ Hc)).
  cbn [app].
  assert (Et : (chunk <? st_size) = (st_size >? 4096)).
  { subst chunk. destruct (Z.gtb_spec st_size 4096), (Z.ltb_spec (Z.min st_size 4096) st_size); lia. }
  rewrite Et.
  assert (Es : buf_span (firstn (Z.to_nat chunk) content) chunk
               = Some (firstn (Z.to_nat chunk) content)).
  { unfold buf_span. destruct (Z.ltb_spec chunk 0); [lia|].
    now rewrite firstn_firstn, Nat.min_id. }
  destruct (st_size >? 4096).
  - rewrite bind_printf. rewrite (bind_rd_some _ _ _ _ Es).
    rewrite bind_printf, printf_run. cbn [out err].
    now rewrite !append_assoc.
  - unfold bind at 1. cbn [ret]. rewrite (bind_rd_some _ _ _ _ Es).
    rewrite bind_printf, printf_run. cbn [out err].
    now rewrite !append_assoc.
Qed.

(** C9, as the code has it: the size that counts is the one [stat]
    reports.  Of a regular file that [stat] and [open] serve, with
    [st_size] for its size, the read loop takes the first
    [min st_size 4096] bytes, no more whatever the file holds behind
    them, provided the file delivers that many; exactly these bytes
    reach the renderer, and the line has the truncation marker if and
    only if [st_size] is above 4096. *)
Theorem live_file_chunk (fuel : nat) (path d_name : string) (st_size : Z)
        (content : list byte) (fails : bool) (depth : Z) (io : stdio) :
  (0 < fuel)%nat ->
  0 <= st_size ->
  Z.min st_size 4096 <= Z.of_nat (List.length content) ->
  let chunk := Z.min st_size 4096 in
  let taken := firstn (Z.to_nat chunk) content in
  read_loop fuel (path ++ "/" ++ d_name) fails content chunk []
            (mkio (out io ++ Printf.pad (depth * shift) ++ d_name) (err io))
  = (Ok taken, mkio (out io ++ Printf.pad (depth * shift) ++ d_name) (err io))
  /\ Z.of_nat (List.length taken) = chunk
  /\ chunk <= 4096
  /\ dump_live_file utilfdt_print_data fuel path d_name
                    (mkfile (Some st_size) true content fails) depth io =
       (Ok tt,
        mkio (out io ++ Printf.pad (depth * shift) ++ d_name
              ++ (if st_size >? 4096 then " (trunc)" else "")
              ++ utilfdt_print_data taken ++ ";" ++ nl)
             (err io)).
Proof.
  intros Hfuel Hsz Hlen chunk taken.
  assert (Hc : 0 <= chunk <= Z.of_nat (List.length content))
    by (subst chunk; lia).
  split; [|split; [|split]].
  - destruct fuel as [|f]; [inversion Hfuel|].
    now rewrite (read_loop_full f _ fails content [] chunk _ Hc).
  - subst taken. rewrite firstn_length_le by lia. lia.
  - subst chunk. lia.
  - now apply dump_live_file_run.
Qed.

End LiveFileFacts.

(** A file of 5000 bytes: 4096 of them reach the renderer, and the line
    has the marker. *)
Example live_file_truncated :
  dump_live_file show_len 1 "/t" "big" (plain 5000 (zeros 5000)) 1 io0
  = (Ok tt, mkio ("    big (trunc) [4096];" ++ nl) "").
Proof. vm_compute. reflexivity. Qed.

(** The failures of the first loop: [stat], [open] and [read]. *)
Example live_file_failures :
  dump_live_file show_len 1 "/t" "a" (mkfile None true [] false) 1 io0
  = (Exit 1, mkio "    a" ("could not open: /t/a" ++ nl))
  /\ dump_live_file show_len 1 "/t" "a" (mkfile (Some 2) false [] false) 1 io0
     = (Exit 1, mkio "    a" ("Could not open: /t/a" ++ nl))
  /\ dump_live_file show_len 9 "/t" "a" (mkfile (Some 2) true (zeros 1) true)
                    1 io0
     = (Exit 1, mkio "    a" ("Read failed on: /t/a" ++ nl)).
Proof. vm_compute. repeat split. Qed.

(** ** The legacy alignment of property values *)

(** X13: with the blob at an address that is a multiple of 8, the
    value of a property of 8 bytes or more in a blob older than version
    16 starts at a multiple of 8 from the start of the blob, less than
    8 bytes behind the name-offset cell. *)
Lemma prop_value_aligned (version sz p blob : Z) :
  version < 16 -> 8 <= sz -> blob mod 8 = 0 ->
  0 <= p -> p + 7 < 2 ^ 64 ->
  (prop_value version sz p - blob) mod 8 = 0
  /\ p <= prop_value version sz p < p + 8.
Proof.
  intros Hv Hsz Hb Hp Hmax. unfold prop_value.
  destruct (Z.ltb_spec version 16); [|lia].
  destruct (Z.geb_spec sz 8); [|lia]. cbn [andb].
  destruct (PALIGN_8 p Hp Hmax) as (Ha & Hr). split; [|exact Hr].
  rewrite Zminus_mod, Ha, Hb. reflexivity.
Qed.

(** From version 16 on, and for shorter values, the value starts right
    after the name-offset cell. *)
Lemma prop_value_unaligned (version sz p : Z) :
  16 <= version \/ sz < 8 -> prop_value version sz p = p.
Proof.
  intros H. unfold prop_value.
  destruct (Z.ltb_spec version 16), (Z.geb_spec sz 8); try reflexivity; lia.
Qed.

(** C1, where the code departs from it: the version 15 blob [blob15]
    found by the scan 4 bytes into a file.  Its property of 8 bytes has
    its cells at offsets 68 and 72; the cursor after them, address 4176,
    is already a multiple of 8, so the value is taken at offset 76 from
    the start of the blob, which is not a multiple of 8, and the four
    bytes of padding are printed as the start of the value. *)
Theorem embedded_blob_value_offset :
  let blob := buf_base file_embedded + 4 in
  fst (scan_blob 200 file_embedded true "f" io0) = Ok blob
  /\ hdr file_embedded blob o_version = Some 15
  /\ load32 file_embedded (blob + 64) = Some FDT_PROP
  /\ load32 file_embedded (blob + 68) = Some 8
  /\ prop_value 15 8 (blob + 76) - blob = 76
  /\ (prop_value 15 8 (blob + 76) - blob) mod 8 = 4
  /\ walk_prop show_hex file_embedded true (ulong blob) (blob + 96) 15
               (blob + 68) 1 io0
     = (Ok (Continue (blob + 84) 1),
        mkio ("// 0060: string: reg" ++ nl ++ "// 004c: value" ++ nl
              ++ "    reg = [00 00 00 00 11 22 33 44];" ++ nl) "").
Proof. vm_compute. repeat split. Qed.

(** The same blob at the start of the file: the value is taken at
    offset 80. *)
Example whole_blob_value_offset :
  let blob := buf_base file_whole in
  prop_value 15 8 (blob + 76) - blob = 80
  /\ walk_prop show_hex file_whole true (ulong blob) (blob + 96) 15
               (blob + 68) 1 io0
     = (Ok (Continue (blob + 88) 1),
        mkio ("// 0060: string: reg" ++ nl ++ "// 0050: value" ++ nl
              ++ "    reg = [11 22 33 44 55 66 77 88];" ++ nl) "").
Proof. vm_compute. repeat split. Qed.

(** The whole run on the embedded blob: the walk goes astray after the
    property and ends on what it takes for an unknown tag. *)
Example embedded_blob_run :
  main show_hex 200 false true "f" (File file_embedded) io0 =
    (Ok 0,
     mkio ("f: found fdt at offset 0x4" ++ nl ++ "/dts-v1/;" ++ nl
           ++ header_text 0xd00dfeed 100 56 96 40 15 2 0 4 40
           ++ "/ {" ++ nl ++ "    reg = [00 00 00 00 11 22 33 44];" ++ nl)
          ("     ** Unknown tag 0x55667788" ++ nl)).
Proof. vm_compute. reflexivity. Qed.

(** ** The cursor after a BeginNode record *)

(** C7, where the code departs from it: the blob [blob_cpus] found by
    the scan one byte into a file.  The records of its structure block
    are at offsets 56, 64, 76, ... of the blob.  After the root's
    BeginNode the cursor is rounded up to a multiple of 4 as an
    address and lands on offset 63, not on 64; where the record of
    [cpus] is decoded from its place, the name that follows the tag is
    read, the line is printed at the current depth and the depth goes
    up by one, but the cursor lands on offset 75, one byte before the
    EndNode record at 76.  The run takes the four bytes at offset 63
    for a tag and ends there. *)
Theorem begin_node_cursor_off_boundary :
  let m := file_cpus_at_1 in
  let blob := buf_base m + 1 in
  fst (scan_blob 200 m false "f" io0) = Ok blob
  /\ hdr m blob o_off_dt_struct = Some 56
  /\ load32 m (blob + 56) = Some FDT_BEGIN_NODE
  /\ cstring m (blob + 60) = Some []
  /\ walk_step show_hex m false (ulong blob) (blob + 88) 17 (blob + 56) 0 io0
     = (Ok (Continue (blob + 63) 1), mkio ("/ {" ++ nl) "")
  /\ load32 m (blob + 64) = Some FDT_BEGIN_NODE
  /\ cstring m (blob + 68) = Some str_cpus_name
  /\ walk_step show_hex m false (ulong blob) (blob + 88) 17 (blob + 64) 1 io0
     = (Ok (Continue (blob + 75) 2), mkio ("    cpus {" ++ nl) "")
  /\ (blob + 75 - blob) mod 4 = 3
  /\ load32 m (blob + 76) = Some FDT_END_NODE
  /\ main show_hex 200 false true "f" (File m) io0 =
       (Ok 0,
        mkio ("f: found fdt at offset 0x1" ++ nl ++ "/dts-v1/;" ++ nl
              ++ header_text 0xd00dfeed 92 56 88 40 17 2 0 4 32
              ++ "/ {" ++ nl)
             ("     ** Unknown tag 0x00000000" ++ nl)).
Proof. vm_compute. repeat split. Qed.

(** The same blob at the start of the file: every record is decoded. *)
Example whole_blob_cpus_run :
  main show_hex 200 false false "f" (File file_cpus) io0 =
    (Ok 0,
     mkio ("/dts-v1/;" ++ nl
           ++ header_text 0xd00dfeed 92 56 88 40 17 2 0 4 32
           ++ "/ {" ++ nl ++ "    cpus {" ++ nl ++ "    };" ++ nl
           ++ "};" ++ nl)
          "").
Proof. vm_compute. reflexivity. Qed.

(** ** The scan on short files *)

(** C5, where the code departs from it: a file of 5 bytes that starts
    with the magic number.  The probe finds offset 0, the magic number
    matches, and the version is then read at offset 20, past the end of
    the file: the candidate is neither skipped nor is the process ended
    with the error for a file without blob. *)
Theorem scan_reads_header_past_end :
  let m := file_magic_only in
  memchr m (buf_base m) smagic0 (ulong (buf_len m - 4))
  = Some (Some (buf_base m))
  /\ hdr m (buf_base m) o_magic = Some FDT_MAGIC
  /\ hdr m (buf_base m) o_version = None
  /\ main show_hex 10 false true "f" (File m) io0 = (Fault, io0).
Proof. vm_compute. repeat split. Qed.

(** C10, where the code departs from it: a file of one byte, the first
    byte of the magic number.  The length of the probe, [endp - p - 4]
    as a [size_t], is 2^64 - 3; the probe finds offset 0, which is
    among the last 4 bytes, and the comparison of the magic number
    reads the 3 bytes after the end of the file. *)
Theorem scan_probe_on_short_file :
  let m := file_one_byte in
  ulong (buf_base m + buf_len m - buf_base m - 4) = 2 ^ 64 - 3
  /\ memchr m (buf_base m) smagic0
            (ulong (buf_base m + buf_len m - buf_base m - 4))
     = Some (Some (buf_base m))
  /\ hdr m (buf_base m) o_magic = None
  /\ main show_hex 10 false true "f" (File m) io0 = (Fault, io0).
Proof. vm_compute. repeat split. Qed.

(** ** The claims that fail, at concrete inputs *)

(** C2 fails on [file_tag7]: the tag 7 inside the root node ends the
    walk, standard error gets the tag value without any offset, and the
    process ends with status 0. *)
Lemma unknown_tag_status_zero :
  let r := main show_hex 100 false false "f" (File file_tag7) io0 in
  exit_status (fst r) = Some 0
  /\ err (snd r) = "     ** Unknown tag 0x00000007" ++ nl
  /\ ~ (exists n, exit_status (fst r) = Some n /\ n <> 0).
Proof.
  vm_compute. repeat split.
  intros (n & E & Hn). inversion E. now subst n.
Qed.

(** C3 fails on [file_end_node_first] and on [file_open_at_end]: an
    EndNode tag with no node open, and an End tag with the root node
    still open, both decode to the end, with status 0 and nothing on
    standard error. *)
Lemma unbalanced_blocks_decode :
  main show_hex 100 false false "f" (File file_end_node_first) io0
  = (Ok 0,
     mkio ("/dts-v1/;" ++ nl
           ++ header_text 0xd00dfeed 68 56 64 40 17 2 0 4 8
           ++ "    };" ++ nl) "")
  /\ main show_hex 100 false false "f" (File file_open_at_end) io0
     = (Ok 0,
        mkio ("/dts-v1/;" ++ nl
              ++ header_text 0xd00dfeed 72 56 68 40 17 2 0 4 12
              ++ "/ {" ++ nl) "").
Proof. vm_compute. split; reflexivity. Qed.

(** C6 fails on [file_whole]: with diagnostic mode off the header
    summary is on standard output all the same. *)
Lemma header_summary_without_debug :
  main show_hex 100 false false "f" (File file_whole) io0
  = (Ok 0,
     mkio ("/dts-v1/;" ++ nl
           ++ "// magic:" ++ tab ++ tab ++ "0xd00dfeed" ++ nl
           ++ "// totalsize:" ++ tab ++ tab ++ "0x64 (100)" ++ nl
           ++ "// off_dt_struct:" ++ tab ++ "0x38" ++ nl
           ++ "// off_dt_strings:" ++ tab ++ "0x60" ++ nl
           ++ "// off_mem_rsvmap:" ++ tab ++ "0x28" ++ nl
           ++ "// version:" ++ tab ++ tab ++ "15" ++ nl
           ++ "// last_comp_version:" ++ tab ++ "2" ++ nl
           ++ "// boot_cpuid_phys:" ++ tab ++ "0x0" ++ nl
           ++ "// size_dt_strings:" ++ tab ++ "0x4" ++ nl
           ++ nl
           ++ "/ {" ++ nl
           ++ "    reg = [11 22 33 44 55 66 77 88];" ++ nl
           ++ "};" ++ nl) "").
Proof. vm_compute. reflexivity. Qed.


(** C9 fails on a file of 5000 bytes for which [stat] reports the size
    0, as the files of [/proc] have it: nothing is read, the renderer
    gets no byte and the line has no marker, though the file holds more
    than 4096 bytes. *)
Lemma no_marker_for_unreported_size :
  let content := zeros 5000 in
  4096 < Z.of_nat (List.length content)
  /\ dump_live_file show_len 1 "/proc" "big" (plain 0 content) 1 io0
     = (Ok tt, mkio ("    big [0];" ++ nl) "")
  /\ read_loop 1 "/proc/big" false content 0 [] io0 = (Ok [], io0).
Proof. vm_compute. repeat split. Qed.

(** ** The theorems at concrete inputs *)

(** [begin_node_step] on the node [cpus] of [file_cpus], at depth 1:
    the name of 4 characters and its terminator end at address 4169,
    and the cursor goes to 4172. *)
Example begin_node_step_cpus :
  let m := file_cpus in
  load32 m 4160 = Some FDT_BEGIN_NODE
  /\ cstring m (4160 + 4) = Some str_cpus_name
  /\ walk_step show_hex m true 4096 4184 17 4160 1 io0
     = (Ok (Continue 4172 2),
        mkio ("// 0040: tag: 0x00000001 (FDT_BEGIN_NODE)" ++ nl
              ++ "    cpus {" ++ nl) "")
  /\ (4172 - 4096) mod 4 = 0.
Proof.
  assert (H1 : load32 file_cpus 4160 = Some FDT_BEGIN_NODE)
    by (vm_compute; reflexivity).
  assert (H2 : cstring file_cpus (4160 + 4) = Some str_cpus_name)
    by (vm_compute; reflexivity).
  destruct (begin_node_step show_hex file_cpus true 4096 4184 17 4160 1
                            str_cpus_name io0 H1 H2 ltac:(lia)
                            ltac:(vm_compute; reflexivity))
    as (W1 & _ & _ & W4).
  split; [exact H1|]. split; [exact H2|]. split; [exact W1|].
  apply (W4 4096). reflexivity.
Qed.

(** [end_tags_unchecked] on [file_end_node_first], with no node open. *)
Lemma end_tags_unchecked_witness :
  let m := file_end_node_first in
  load32 m 4152 = Some FDT_END_NODE
  /\ load32 m 4156 = Some FDT_END
  /\ walk_step show_hex m false 4096 4160 17 4152 0 io0
     = (Ok (Continue 4156 (-1)), mkio ("    };" ++ nl) "")
  /\ walk show_hex m false 4096 4160 17 1 4156 (-1) io0
     = (Ok (4160, -1), io0).
Proof.
  assert (H1 : load32 file_end_node_first 4152 = Some FDT_END_NODE)
    by (vm_compute; reflexivity).
  assert (H2 : load32 file_end_node_first 4156 = Some FDT_END)
    by (vm_compute; reflexivity).
  split; [exact H1|]. split; [exact H2|]. split.
  - exact (proj1 (end_tags_unchecked show_hex file_end_node_first false
                                     4096 4160 17 4152 0 io0) H1).
  - exact (proj2 (end_tags_unchecked show_hex file_end_node_first false
                                     4096 4160 17 4156 (-1) io0) H2 O).
Defined.

(** [unknown_tag_returns] on the tag 7 of [file_tag7], read after the
    root's BeginNode record. *)
Lemma unknown_tag_returns_witness :
  let m := file_tag7 in
  let head := "/dts-v1/;" ++ nl
              ++ header_text 0xd00dfeed 80 56 76 40 17 2 0 4 20 in
  load32 m 4160 = Some 7
  /\ walks show_hex m false 4096 4172 17 1 4152 0 (mkio head "")
           4160 1 (mkio (head ++ "/ {" ++ nl) "")
  /\ walk show_hex m false 4096 4172 17 1 4160 1
          (mkio (head ++ "/ {" ++ nl) "")
     = (Ok (4164, 1),
        mkio (head ++ "/ {" ++ nl) ("     ** Unknown tag 0x00000007" ++ nl))
  /\ main show_hex 2 false false "f" (File m) io0
     = (Ok 0,
        mkio (head ++ "/ {" ++ nl) ("     ** Unknown tag 0x00000007" ++ nl)).
Proof.
  intros m head.
  assert (H : load32 file_tag7 4160 = Some 7) by (vm_compute; reflexivity).
  assert (Hw : walks show_hex file_tag7 false 4096 4172 17 1 4152 0
                     (mkio head "") 4160 1 (mkio (head ++ "/ {" ++ nl) "")).
  { eapply walks_S; [|apply walks_O]. vm_compute. reflexivity. }
  destruct (unknown_tag_returns show_hex file_tag7 false 4096 4172 17 4160 1 7
                                (mkio (head ++ "/ {" ++ nl) "") H)
    as (W1 & W2); try (unfold FDT_BEGIN_NODE, FDT_END_NODE, FDT_PROP,
                       FDT_NOP, FDT_END; lia).
  split; [exact H|]. split; [exact Hw|]. split; [exact (W1 O)|].
  apply (W2 2%nat 1%nat false "f" io0 io0 (mkio head "") 4096 40 56 76 80);
    first [exact Hw | lia | vm_compute; reflexivity].
Defined.

(** [rsvmap_stops_at_sentinel] on the map [(0x1000, 0x200), (0, 0)]. *)
Lemma rsvmap_stops_at_sentinel_witness :
  load64 rsv_one (4096 + 16) = Some 0
  /\ load64 rsv_one (4096 + 16 + 8) = Some 0
  /\ rsvmap_loop 2 rsv_one 4096 0 io0
     = (Ok tt, mkio ("/memreserve/ 0x1000 0x200;" ++ nl) "").
Proof.
  split; [vm_compute; reflexivity|]. split; [vm_compute; reflexivity|].
  apply (rsvmap_stops_at_sentinel rsv_one 4096 [(0x1000, 0x200)] 2 io0).
  - intros [|[|j]] a s E; simpl in E; inversion E; subst.
    repeat split; try (vm_compute; reflexivity). lia.
  - vm_compute; reflexivity.
  - vm_compute; reflexivity.
  - simpl; lia.
Defined.

(** [header_summary_in_any_mode] on [file_whole], diagnostic mode off. *)
Lemma header_summary_in_any_mode_witness :
  hdr file_whole 4096 o_magic = Some 0xd00dfeed
  /\ hdr file_whole 4096 o_version = Some 15
  /\ exists rest,
      out (snd (dump_blob show_hex 100 file_whole 4096 false io0))
      = "" ++ "/dts-v1/;" ++ nl
        ++ header_text 0xd00dfeed 100 56 96 40 15 2 0 4 40 ++ rest.
Proof.
  split; [vm_compute; reflexivity|]. split; [vm_compute; reflexivity|].
  apply (header_summary_in_any_mode show_hex 100 file_whole 4096 false
           0xd00dfeed 100 56 96 40 15 2 0 4 40 io0);
    vm_compute; reflexivity.
Defined.

(** [live_file_chunk] on a file for which [stat] reports 5000 bytes and
    which holds 4500, with a failing [read] behind them: 4096 bytes
    are read. *)
Lemma live_file_chunk_witness :
  let content := zeros 4500 in
  let io := mkio "    big" "" in
  (0 < 1)%nat
  /\ Z.min 5000 4096 <= Z.of_nat (List.length content)
  /\ read_loop 1 "/t/big" true content 4096 [] io = (Ok (zeros 4096), io)
  /\ dump_live_file show_len 1 "/t" "big" (mkfile (Some 5000) true content true)
                    1 io0
     = (Ok tt, mkio ("    big (trunc) [4096];" ++ nl) "").
Proof.
  intros content io.
  assert (Hl : Z.min 5000 4096 <= Z.of_nat (List.length content))
    by (apply Z.leb_le; vm_compute; reflexivity).
  destruct (live_file_chunk show_len 1 "/t" "big" 5000 content true 1 io0
                            ltac:(lia) ltac:(lia) Hl)
    as (W1 & _ & _ & W4).
  split; [lia|]. split; [exact Hl|]. split; [exact W1|exact W4].
Defined.

(** ** Reads inside the buffer *)

Lemma bytes_from_length (m : buffer) (a : Z) :
  buf_base m <= a <= buf_base m + buf_len m ->
  Z.of_nat (List.length (bytes_from m a)) = buf_base m + buf_len m - a.
Proof.
  intros Ha. unfold bytes_from, buf_len in *.
  destruct (Z.ltb_spec a (buf_base m)); [lia|].
  rewrite length_skipn. lia.
Qed.

Lemma span_inside (m : buffer) (a n : Z) :
  0 <= n -> buf_base m <= a -> a + n <= buf_base m + buf_len m ->
  exists l, span m a n = Some l.
Proof.
  intros Hn Ha Hend. unfold span.
  destruct (Z.ltb_spec n 0); [lia|].
  destruct (Z.ltb_spec a (buf_base m)); [lia|].
  pose proof (bytes_from_length m a ltac:(lia)) as L.
  rewrite length_firstn.
  destruct (Z.eqb_spec
              (Z.of_nat (Nat.min (Z.to_nat n) (List.length (bytes_from m a))))
              n); [eauto|lia].
Qed.

Lemma find_byte_bound (c : byte) (l : list byte) (i : nat) :
  find_byte c l = Some i -> (i < List.length l)%nat.
Proof.
  revert i. induction l as [|b r IH]; intros i; cbn [find_byte].
  - discriminate.
  - destruct (Byte.eqb b c).
    + intros E. inversion E. cbn [List.length]. lia.
    + destruct (find_byte c r) as [j|]; cbn [option_map]; [|discriminate].
      intros E. inversion E. specialize (IH j eq_refl).
      cbn [List.length]. lia.
Qed.

(** The probe of the scan, in a buffer with at least 4 bytes left at
    [p]: it stays inside the buffer, and what it finds has the 4 bytes
    of the magic number, and at least one more, before the end. *)
Lemma probe_inside (m : buffer) (p : Z) :
  let endp := buf_base m + buf_len m in
  buf_base m <= p -> p + 4 <= endp -> endp - p - 4 < 2 ^ 64 ->
  match memchr m p smagic0 (ulong (endp - p - 4)) with
  | None => False
  | Some None => True
  | Some (Some q) => p <= q /\ q + 4 < endp /\ hdr m q o_magic <> None
  end.
Proof.
  intros endp Hp H4 Hmax. subst endp.
  pose proof (bytes_from_length m p ltac:(lia)) as L.
  unfold memchr, ulong. rewrite Z.mod_small by lia.
  destruct (find_byte smagic0 (bytes_from m p)) as [i|] eqn:F.
  - apply find_byte_bound in F.
    destruct (Z.ltb_spec (Z.of_nat i) (buf_base m + buf_len m - p - 4));
      [|exact I].
    split; [lia|]. split; [lia|].
    unfold hdr, load32, o_magic.
    destruct (span_inside m (p + Z.of_nat i + 0) 4) as (l & E);
      try lia.
    rewrite E. discriminate.
  - destruct (Z.leb_spec (buf_base m + buf_len m - p - 4)
                         (Z.of_nat (List.length (bytes_from m p))));
      [exact I|lia].
Qed.

(** ** What the scan accepts *)

Lemma plausible_true (m : buffer) (p this_len : Z) (io io' : stdio) :
  plausible m p this_len io = (Ok true, io') ->
  exists version last_comp_version totalsize off_dt_struct off_dt_strings,
    hdr m p o_version = Some version
    /\ hdr m p o_last_comp_version = Some last_comp_version
    /\ hdr m p o_totalsize = Some totalsize
    /\ hdr m p o_off_dt_struct = Some off_dt_struct
    /\ hdr m p o_off_dt_strings = Some off_dt_strings
    /\ version <= 17 /\ last_comp_version < 17
    /\ totalsize < this_len /\ off_dt_struct < this_len
    /\ off_dt_strings < this_len.
Proof.
  unfold plausible, bind, rd, ret.
  destruct (hdr m p o_version) as [v|]; [|discriminate].
  destruct (Z.leb_spec v 17); cbn [negb]; [|discriminate].
  destruct (hdr m p o_last_comp_version) as [lc|]; [|discriminate].
  destruct (Z.ltb_spec lc 17); cbn [negb]; [|discriminate].
  destruct (hdr m p o_totalsize) as [ts|]; [|discriminate].
  destruct (Z.ltb_spec ts this_len); cbn [negb]; [|discriminate].
  destruct (hdr m p o_off_dt_struct) as [os|]; [|discriminate].
  destruct (Z.ltb_spec os this_len); cbn [negb]; [|discriminate].
  destruct (hdr m p o_off_dt_strings) as [ot|]; [|discriminate].
  destruct (Z.ltb_spec ot this_len); [|discriminate].
  intros _. exists v, lc, ts, os, ot. repeat split; assumption.
Qed.

(** An offset that the scan accepts has the magic number and a header
    that passes the five tests. *)
Lemma scan_loop_accepts (fuel : nat) (m : buffer) (debug : bool)
      (file : string) (buf endp : Z) :
  forall (p q : Z) (io io' : stdio),
    scan_loop fuel m debug file buf endp p io = (Ok (Some q), io') ->
    hdr m q o_magic = Some FDT_MAGIC
    /\ exists version last_comp_version totalsize off_dt_struct
              off_dt_strings,
        hdr m q o_version = Some version
        /\ hdr m q o_last_comp_version = Some last_comp_version
        /\ hdr m q o_totalsize = Some totalsize
        /\ hdr m q o_off_dt_struct = Some off_dt_struct
        /\ hdr m q o_off_dt_strings = Some off_dt_strings
        /\ version <= 17 /\ last_comp_version < 17
        /\ totalsize < endp - q /\ off_dt_struct < endp - q
        /\ off_dt_strings < endp - q.
Proof.
  induction fuel as [|f IH]; intros p q io io'; cbn [scan_loop];
    [discriminate|].
  unfold bind at 1, rd at 1.
  destruct (memchr m p smagic0 (ulong (endp - p - 4))) as [[c|]|];
    try discriminate.
  unfold bind at 1, rd at 1.
  destruct (hdr m c o_magic) as [magic|] eqn:Hm; [|discriminate].
  unfold bind at 1.
  destruct (Z.eqb_spec magic FDT_MAGIC) as [->|Hne].
  - unfold bind at 1.
    destruct (plausible m c (endp - c) io) as [[[|]| |n|] io1] eqn:Hpl;
      try discriminate.
    + cbn [ret]. intros E. inversion E; subst.
      split; [assumption|]. eapply plausible_true; eassumption.
    + destruct debug; cbn; apply IH.
  - cbn [ret]. apply IH.
Qed.
(** ** The scan takes the first plausible candidate *)

Lemma byteZ_range (b : byte) : 0 <= byteZ b < 256.
Proof.
  unfold byteZ. pose proof (Byte.to_N_bounded b) as H. lia.
Qed.

Lemma byteZ_inj (b c : byte) : byteZ b = byteZ c -> b = c.
Proof.
  unfold byteZ. intros E. apply N2Z.inj in E.
  pose proof (Byte.of_to_N b) as Hb. rewrite E, Byte.of_to_N in Hb.
  now inversion Hb.
Qed.

Lemma lor_shiftl_8 (a b : Z) :
  0 <= a -> 0 <= b < 256 -> Z.lor (Z.shiftl a 8) b = a * 256 + b.
Proof.
  intros Ha Hb. rewrite Z.shiftl_mul_pow2 by lia. change (2 ^ 8) with 256.
  assert (L : Z.land (a * 256) b = 0).
  { apply Z.bits_inj'. intros n Hn. rewrite Z.land_spec, Z.bits_0.
    destruct (Z.lt_ge_cases n 8).
    - change 256 with (2 ^ 8). rewrite Z.mul_pow2_bits_low by lia.
      reflexivity.
    - rewrite <- (Z.mod_small b (2 ^ 8)) by (change (2 ^ 8) with 256; lia).
      rewrite Z.mod_pow2_bits_high by lia. apply andb_false_r. }
  rewrite <- Z.lxor_lor by assumption.
  symmetry. now apply Z.add_nocarry_lxor.
Qed.

Lemma be_value_4 (b0 b1 b2 b3 : byte) :
  be_value 0 [b0; b1; b2; b3] =
    ((byteZ b0 * 256 + byteZ b1) * 256 + byteZ b2) * 256 + byteZ b3.
Proof.
  pose proof (byteZ_range b0). pose proof (byteZ_range b1).
  pose proof (byteZ_range b2). pose proof (byteZ_range b3).
  cbn [be_value]. rewrite Z.shiftl_0_l, Z.lor_0_l.
  rewrite (lor_shiftl_8 (byteZ b0) (byteZ b1)) by lia.
  rewrite (lor_shiftl_8 (byteZ b0 * 256 + byteZ b1) (byteZ b2)) by lia.
  rewrite (lor_shiftl_8 ((byteZ b0 * 256 + byteZ b1) * 256 + byteZ b2)
                        (byteZ b3)) by lia.
  reflexivity.
Qed.

(** A cell that holds the magic number starts with its first byte. *)
Lemma magic_first_byte (m : buffer) (k : Z) :
  hdr m k o_magic = Some FDT_MAGIC ->
  nth_error (bytes_from m k) 0 = Some smagic0.
Proof.
  unfold hdr, load32, o_magic, span. rewrite Z.add_0_r.
  destruct (4 <? 0); [discriminate|].
  destruct (k <? buf_base m); [discriminate|].
  change (Z.to_nat 4) with 4%nat.
  destruct (bytes_from m k) as [|b0 [|b1 [|b2 [|b3 r]]]];
    cbn [firstn List.length]; try (cbn; discriminate).
  change (Z.of_nat 4 =? 4) with true. cbn [option_map nth_error].
  rewrite be_value_4. intros E. inversion E as [E'].
  pose proof (byteZ_range b0). pose proof (byteZ_range b1).
  pose proof (byteZ_range b2). pose proof (byteZ_range b3).
  unfold FDT_MAGIC in E'.
  assert (E0 : byteZ b0 = byteZ smagic0) by (vm_compute (byteZ smagic0); lia).
  apply byteZ_inj in E0. now rewrite E0.
Qed.

Lemma bytes_from_nth (m : buffer) (p : Z) (j : nat) :
  buf_base m <= p ->
  nth_error (bytes_from m (p + Z.of_nat j)) 0 = nth_error (bytes_from m p) j.
Proof.
  intros Hp. unfold bytes_from.
  destruct (Z.ltb_spec (p + Z.of_nat j) (buf_base m)); [lia|].
  destruct (Z.ltb_spec p (buf_base m)); [lia|].
  rewrite !nth_error_skipn. f_equal. lia.
Qed.

Lemma find_byte_first (c : byte) (l : list byte) :
  forall i j,
    find_byte c l = Some i -> (j < i)%nat -> nth_error l j <> Some c.
Proof.
  induction l as [|b r IH]; intros i j; cbn [find_byte]; [discriminate|].
  destruct (Byte.eqb b c) eqn:E.
  - intros F. inversion F. lia.
  - destruct (find_byte c r) as [i'|]; cbn [option_map]; [|discriminate].
    intros F Hj. inversion F; subst i.
    destruct j as [|j]; cbn [nth_error].
    + intros B. inversion B. subst b.
      now rewrite (@Byte.byte_dec_lb c c eq_refl) in E.
    + apply (IH i' j eq_refl). lia.
Qed.

Lemma find_byte_none (c : byte) (l : list byte) :
  forall j, find_byte c l = None -> nth_error l j <> Some c.
Proof.
  induction l as [|b r IH]; intros j; cbn [find_byte].
  - destruct j; discriminate.
  - destruct (Byte.eqb b c) eqn:E; [discriminate|].
    destruct (find_byte c r) as [i'|] eqn:F; cbn [option_map];
      [discriminate|].
    intros _. destruct j as [|j]; cbn [nth_error].
    + intros B. inversion B. subst b.
      now rewrite (@Byte.byte_dec_lb c c eq_refl) in E.
    + now apply IH.
Qed.

(** What [memchr] passes over does not hold the byte. *)
Lemma memchr_passes (m : buffer) (p n : Z) (c : byte) (r : option Z) :
  buf_base m <= p ->
  memchr m p c n = Some r ->
  forall k, p <= k -> k < match r with Some q => q | None => p + n end ->
            nth_error (bytes_from m k) 0 <> Some c.
Proof.
  intros Hp. unfold memchr.
  intros E k Hk Hlt.
  replace k with (p + Z.of_nat (Z.to_nat (k - p))) by lia.
  rewrite bytes_from_nth by assumption.
  destruct (find_byte c (bytes_from m p)) as [i|] eqn:F.
  - apply (find_byte_first c _ i _ F).
    destruct (Z.ltb_spec (Z.of_nat i) n); inversion E; subst r; lia.
  - now apply find_byte_none.
Qed.

Lemma memchr_found_after (m : buffer) (p n : Z) (c : byte) (q : Z) :
  memchr m p c n = Some (Some q) -> p <= q < p + n.
Proof.
  unfold memchr.
  destruct (find_byte c (bytes_from m p)) as [i|].
  - destruct (Z.ltb_spec (Z.of_nat i) n); intros E; inversion E. lia.
  - destruct (n <=? _); discriminate.
Qed.

(** The test reads the header and writes nothing. *)
Lemma plausible_pure (m : buffer) (p this_len : Z) (io : stdio) :
  plausible m p this_len io = (fst (plausible m p this_len io0), io).
Proof.
  unfold plausible, bind, rd, ret.
  repeat match goal with
         | |- context [match ?o with Some _ => _ | None => _ end] =>
             destruct o; try reflexivity
         | |- context [if ?b then _ else _] => destruct b; try reflexivity
         end.
Qed.

(** Up to the offset that the scan accepts, or up to the end of the
    probe when it gives up, every cell that holds the magic number
    belongs to a header that was read and failed one of the tests. *)
Lemma scan_loop_skips (fuel : nat) (m : buffer) (debug : bool)
      (file : string) (buf : Z) :
  let endp := buf_base m + buf_len m in
  forall (p : Z) (r : option Z) (io io' : stdio),
    buf_base m <= p -> p + 4 <= endp -> endp - p - 4 < 2 ^ 64 ->
    scan_loop fuel m debug file buf endp p io = (Ok r, io') ->
    forall k,
      p <= k -> k < match r with Some q => q | None => endp - 4 end ->
      hdr m k o_magic = Some FDT_MAGIC ->
      fst (plausible m k (endp - k) io0) = Ok false.
Proof.
  intros endp.
  induction fuel as [|f IH]; intros p r io io' Hp H4 Hmax; cbn [scan_loop];
    [discriminate|].
  unfold bind at 1, rd at 1.
  destruct (memchr m p smagic0 (ulong (endp - p - 4))) as [c|] eqn:Hc;
    [|discriminate].
  assert (Hn : ulong (endp - p - 4) = endp - p - 4)
    by (unfold ulong; apply Z.mod_small; lia).
  pose proof (memchr_passes m p _ smagic0 c Hp Hc) as Hpass.
  destruct c as [c|].
  - apply memchr_found_after in Hc. rewrite Hn in Hc.
    unfold bind at 1, rd at 1.
    destruct (hdr m c o_magic) as [magic|] eqn:Hm; [|discriminate].
    unfold bind at 1.
    assert (Hnext : forall io1,
               (hdr m c o_magic = Some FDT_MAGIC ->
                fst (plausible m c (endp - c) io0) = Ok false) ->
               scan_loop f m debug file buf endp (c + 1) io1 = (Ok r, io') ->
               forall k,
                 p <= k ->
                 k < match r with Some q => q | None => endp - 4 end ->
                 hdr m k o_magic = Some FDT_MAGIC ->
                 fst (plausible m k (endp - k) io0) = Ok false).
    { intros io1 Hb Hrec k Hk Hlt Hmk.
      destruct (Z.lt_trichotomy k c) as [Hkc|[->|Hkc]].
      - exfalso. apply (Hpass k Hk Hkc). now apply magic_first_byte.
      - now apply Hb.
      - apply (IH (c + 1) r io1 io'); try assumption; lia. }
    destruct (Z.eqb_spec magic FDT_MAGIC) as [->|Hne].
    + unfold bind at 1. rewrite plausible_pure.
      destruct (fst (plausible m c (endp - c) io0)) as [[|]| |n|] eqn:Hpl;
        try discriminate.
      * cbn [ret]. intros E. inversion E; subst r io'.
        intros k Hk Hlt Hmk. exfalso.
        apply (Hpass k Hk Hlt). now apply magic_first_byte.
      * destruct debug.
        -- rewrite bind_printf. cbn [ret]. apply Hnext. now intros _.
        -- unfold bind at 1. cbn [ret]. apply Hnext. now intros _.
    + cbn [ret]. apply Hnext. intros Hm'. congruence.
  - cbn [ret]. intros E. inversion E; subst r io'.
    intros k Hk Hlt Hmk. exfalso.
    apply (Hpass k Hk); [lia|]. now apply magic_first_byte.
Qed.

Lemma plausible_not_out_of_fuel (m : buffer) (p this_len : Z) (io : stdio) :
  fst (plausible m p this_len io) <> OutOfFuel.
Proof.
  unfold plausible, bind, rd, ret.
  repeat match goal with
         | |- context [match ?o with Some _ => _ | None => _ end] =>
             destruct o; try discriminate
         | |- context [if ?b then _ else _] => destruct b; try discriminate
         end.
Qed.

(** The scan ends within as many turns as there are offsets to probe. *)
Lemma scan_loop_ends (fuel : nat) (m : buffer) (debug : bool)
      (file : string) (buf : Z) :
  let endp := buf_base m + buf_len m in
  forall (p : Z) (io : stdio),
    buf_base m <= p -> p + 4 <= endp -> endp - p - 4 < 2 ^ 64 ->
    (Z.to_nat (endp - p - 4) < fuel)%nat ->
    fst (scan_loop fuel m debug file buf endp p io) <> OutOfFuel.
Proof.
  intros endp.
  induction fuel as [|f IH]; intros p io Hp H4 Hmax Hfuel; [lia|].
  cbn [scan_loop]. unfold bind at 1, rd at 1.
  destruct (memchr m p smagic0 (ulong (endp - p - 4))) as [[c|]|] eqn:Hc;
    try discriminate.
  apply memchr_found_after in Hc.
  unfold ulong in Hc. rewrite Z.mod_small in Hc by lia.
  unfold bind at 1, rd at 1.
  destruct (hdr m c o_magic) as [magic|]; [|discriminate].
  unfold bind at 1.
  assert (Hnext : forall io1,
             fst (scan_loop f m debug file buf endp (c + 1) io1)
             <> OutOfFuel)
    by (intros io1; apply IH; lia).
  destruct (magic =? FDT_MAGIC); [|apply Hnext].
  unfold bind at 1.
  pose proof (plausible_not_out_of_fuel m c (endp - c) io) as Hpl.
  destruct (plausible m c (endp - c) io) as [[[|]| |n|] io1];
    try discriminate.
  - destruct debug; [rewrite bind_printf|unfold bind at 1];
      cbn [ret]; apply Hnext.
  - now elim Hpl.
Qed.

Lemma find_byte_found (c : byte) (l : list byte) :
  forall i, find_byte c l = Some i -> nth_error l i = Some c.
Proof.
  induction l as [|b r IH]; intros i; cbn [find_byte]; [discriminate|].
  destruct (Byte.eqb b c) eqn:E.
  - intros F. inversion F. apply Byte.byte_dec_bl in E. now subst b.
  - destruct (find_byte c r) as [i'|]; cbn [option_map]; [|discriminate].
    intros F. inversion F. cbn [nth_error]. now apply IH.
Qed.

(** X12: in a file of 4 bytes or more, the first byte of the magic
    number in the last 4 bytes is not seen: when it is nowhere before
    them, the scan ends the process with its error on standard error
    and status 1 after a single probe, and standard output is as it
    was. *)
Lemma scan_misses_last_four (fuel : nat) (m : buffer) (debug : bool)
      (file : string) (io : stdio) :
  let endp := buf_base m + buf_len m in
  4 <= buf_len m < 2 ^ 64 ->
  (forall k, buf_base m <= k < endp - 4 -> load m k <> Some smagic0) ->
  scan_blob (S fuel) m debug file io =
    (Exit 1,
     mkio (out io) (err io ++ file ++ ": could not locate fdt magic" ++ nl)).
Proof.
  intros endp Hlen Hno. unfold scan_blob. cbn [scan_loop].
  fold endp.
  assert (Hn : ulong (endp - buf_base m - 4) = buf_len m - 4)
    by (unfold ulong, endp; rewrite Z.mod_small; lia).
  rewrite Hn.
  assert (Hc : memchr m (buf_base m) smagic0 (buf_len m - 4) = Some None).
  { pose proof (bytes_from_length m (buf_base m) ltac:(lia)) as L.
    unfold memchr.
    destruct (find_byte smagic0 (bytes_from m (buf_base m))) as [i|] eqn:F.
    - destruct (Z.ltb_spec (Z.of_nat i) (buf_len m - 4)) as [Hi|Hi];
        [|reflexivity].
      exfalso. apply (Hno (buf_base m + Z.of_nat i)); [unfold endp; lia|].
      unfold load. rewrite bytes_from_nth by lia.
      now apply find_byte_found.
    - destruct (Z.leb_spec (buf_len m - 4)
                           (Z.of_nat (List.length
                                        (bytes_from m (buf_base m)))));
        [reflexivity|lia]. }
  unfold bind at 1. unfold bind at 1. rewrite Hc. reflexivity.
Qed.

(** * Further properties of the code *)

(** ** The other records of the structure block *)

Section RecordFacts.

Variable utilfdt_print_data : list byte -> string.
Variable m : buffer.
Variable debug : bool.
Variables blob_off p_strings version : Z.

(** X1: on a Property tag the walker reads the length and the name
    offset, takes the name from the strings block at that offset and
    the value right behind the two cells (from version 16 on, or when
    it is shorter than 8 bytes), prints the name and the rendered value
    at the indentation of the current depth, and moves the cursor to
    the first 4-byte boundary at or after the end of the value; the
    depth is unchanged. *)
Theorem prop_step (p depth szc nameoff : Z) (name value : list byte)
        (io : stdio) :
  load32 m p = Some FDT_PROP ->
  load32 m (p + 4) = Some szc ->
  load32 m (p + 4 + 4) = Some nameoff ->
  cstring m (p_strings + nameoff) = Some name ->
  let sz := to_int szc in
  let t := prop_value version sz (p + 4 + 4 + 4) in
  span m t sz = Some value ->
  0 <= t -> t + sz + 3 < 2 ^ 64 ->
  walk_step utilfdt_print_data m debug blob_off p_strings version
            p depth io =
    (Ok (Continue (PALIGN (t + sz) 4) depth),
     mkio (out io
           ++ dbg debug (Printf.x0 4 (ulong (p + 4 - blob_off - 4))
                         ++ ": tag: 0x" ++ Printf.x0 8 FDT_PROP
                         ++ " (" ++ tagname FDT_PROP ++ ")" ++ nl)
           ++ dbg debug (Printf.x0 4 (ulong (p_strings + nameoff - blob_off))
                         ++ ": string: " ++ Printf.s name ++ nl)
           ++ dbg debug (Printf.x0 4 (ulong (t - blob_off)) ++ ": value" ++ nl)
           ++ Printf.pad (depth * shift) ++ Printf.s name
           ++ utilfdt_print_data value ++ ";" ++ nl)
          (err io))
  /\ Z.of_nat (List.length value) = sz
  /\ (16 <= version \/ sz < 8 -> t = p + 12)
  /\ PALIGN (t + sz) 4 mod 4 = 0
  /\ t + sz <= PALIGN (t + sz) 4 < t + sz + 4.
Proof.
  intros Htag Hsz Hoff Hname sz t Hval Ht Hmax.
  assert (Hlen : Z.of_nat (List.length value) = sz).
  { revert Hval. unfold span.
    destruct (sz <? 0); [discriminate|].
    destruct (t <? buf_base m); [discriminate|].
    destruct (Z.eqb_spec
                (Z.of_nat (List.length (firstn (Z.to_nat sz)
                                               (bytes_from m t)))) sz);
      [|discriminate].
    intros E. inversion E. subst value. assumption. }
  assert (Hsz0 : 0 <= sz) by lia.
  split; [|split; [exact Hlen|split]].
  - unfold walk_step.
    rewrite (bind_rd_some _ _ _ _ Htag).
    change (FDT_PROP =? FDT_END) with false. cbv iota.
    rewrite bind_dumpf.
    change (FDT_PROP =? FDT_BEGIN_NODE) with false.
    change (FDT_PROP =? FDT_END_NODE) with false.
    change (FDT_PROP =? FDT_NOP) with false.
    change (negb (FDT_PROP =? FDT_PROP)) with false. cbv iota.
    unfold walk_prop.
    rewrite (bind_rd_some _ _ _ _ Hsz), (bind_rd_some _ _ _ _ Hoff).
    cbv zeta. rewrite (bind_rd_some _ _ _ _ Hname).
    rewrite !bind_dumpf, bind_printf.
    fold sz. fold t. rewrite (bind_rd_some _ _ _ _ Hval).
    rewrite !bind_printf. unfold ret. cbn [out err].
    rewrite !append_assoc. reflexivity.
  - intros Hv. subst t. rewrite prop_value_unaligned by assumption. lia.
  - apply PALIGN_4; lia.
Qed.

(** On a Nop tag the walker prints the comment [// [NOP]] at the
    indentation of the current depth and goes on behind the tag, at the
    same depth. *)
Lemma nop_step (p depth : Z) (io : stdio) :
  load32 m p = Some FDT_NOP ->
  walk_step utilfdt_print_data m debug blob_off p_strings version
            p depth io =
    (Ok (Continue (p + 4) depth),
     mkio (out io
           ++ dbg debug (Printf.x0 4 (ulong (p + 4 - blob_off - 4))
                         ++ ": tag: 0x" ++ Printf.x0 8 FDT_NOP
                         ++ " (" ++ tagname FDT_NOP ++ ")" ++ nl)
           ++ Printf.pad (depth * shift) ++ "// [NOP]" ++ nl)
          (err io)).
Proof.
  intros Htag. unfold walk_step.
  rewrite (bind_rd_some _ _ _ _ Htag).
  change (FDT_NOP =? FDT_END) with false. cbv iota.
  rewrite bind_dumpf.
  change (FDT_NOP =? FDT_BEGIN_NODE) with false.
  change (FDT_NOP =? FDT_END_NODE) with false.
  change (FDT_NOP =? FDT_NOP) with true. cbv iota.
  rewrite bind_printf. unfold ret. cbn [out err].
  rewrite append_assoc. reflexivity.
Qed.

End RecordFacts.

(** ** Diagnostic mode changes standard output only *)

Lemma same_bind {A B} (c1 c2 : M A) (k1 k2 : A -> M B) :
  same_but_out c1 c2 -> (forall a, same_but_out (k1 a) (k2 a)) ->
  same_but_out (bind c1 k1) (bind c2 k2).
Proof.
  intros Hc Hk io1 io2 E. unfold bind.
  destruct (Hc io1 io2 E) as (Hr & He).
  destruct (c1 io1) as [r1 io1'], (c2 io2) as [r2 io2'].
  cbn [fst snd] in Hr, He. subst r2.
  destruct r1 as [a| |n|]; cbn [fst snd]; try (split; [reflexivity|exact He]).
  now apply Hk.
Qed.

Lemma same_ret {A} (a : A) : same_but_out (ret a) (ret a).
Proof. intros io1 io2 E. now split. Qed.

Lemma same_rd {A} (o : option A) : same_but_out (rd o) (rd o).
Proof. intros io1 io2 E. destruct o; now split. Qed.

Lemma same_out_of_fuel {A} :
  same_but_out (fun io => (@OutOfFuel A, io)) (fun io => (@OutOfFuel A, io)).
Proof. intros io1 io2 E. now split. Qed.

Lemma same_printf (s1 s2 : string) : same_but_out (printf s1) (printf s2).
Proof. intros io1 io2 E. now split. Qed.

Lemma same_printf_ret (s : string) : same_but_out (printf s) (ret tt).
Proof. intros io1 io2 E. now split. Qed.

Lemma same_ret_printf (s : string) : same_but_out (ret tt) (printf s).
Proof. intros io1 io2 E. now split. Qed.

Lemma same_eprintf (s : string) : same_but_out (eprintf s) (eprintf s).
Proof. intros io1 io2 E. split; [reflexivity|]. cbn. now rewrite E. Qed.

Lemma same_die {A} (s : string) : same_but_out (@die A s) (@die A s).
Proof. intros io1 io2 E. split; [reflexivity|]. cbn. now rewrite E. Qed.

Lemma same_dumpf (d1 d2 : bool) (s1 s2 : string) :
  same_but_out (dumpf d1 s1) (dumpf d2 s2).
Proof. intros io1 io2 E. destruct d1, d2; now split. Qed.

Ltac same_step :=
  first
    [ apply same_ret | apply same_rd | apply same_printf
    | apply same_printf_ret | apply same_ret_printf
    | apply same_eprintf | apply same_dumpf | apply same_die
    | apply same_out_of_fuel
    | apply same_bind; [|intros ?]
    | match goal with
      | |- same_but_out (if ?b then _ else _) (if ?b then _ else _) =>
          destruct b
      | |- same_but_out (match ?x with _ => _ end)
                        (match ?x with _ => _ end) =>
          destruct x
      end ].

Section DebugFacts.

Variable utilfdt_print_data : list byte -> string.

Lemma same_rsvmap_loop (fuel : nat) (m : buffer) (q i : Z) :
  same_but_out (rsvmap_loop fuel m q i) (rsvmap_loop fuel m q i).
Proof.
  revert i. induction fuel as [|f IH]; intros i; cbn [rsvmap_loop];
    repeat same_step. apply IH.
Qed.

Lemma same_walk_step (m : buffer) (d1 d2 : bool)
      (blob_off p_strings version p depth : Z) :
  same_but_out
    (walk_step utilfdt_print_data m d1 blob_off p_strings version p depth)
    (walk_step utilfdt_print_data m d2 blob_off p_strings version p depth).
Proof. unfold walk_step, walk_prop. repeat same_step. Qed.

Lemma same_walk (m : buffer) (d1 d2 : bool) (blob_off p_strings version : Z)
      (fuel : nat) (p depth : Z) :
  same_but_out
    (walk utilfdt_print_data m d1 blob_off p_strings version fuel p depth)
    (walk utilfdt_print_data m d2 blob_off p_strings version fuel p depth).
Proof.
  revert p depth. induction fuel as [|f IH]; intros p depth; cbn [walk].
  - apply same_out_of_fuel.
  - apply same_bind; [apply same_walk_step|].
    intros [p' d'|p' d']; [apply IH|apply same_ret].
Qed.

Lemma same_dump_header m blob a b c d e :
  same_but_out (dump_header m blob a b c d e) (dump_header m blob a b c d e).
Proof. unfold dump_header. repeat same_step. Qed.

Lemma same_dump_blob (fuel : nat) (m : buffer) (blob : Z) (d1 d2 : bool) :
  same_but_out (dump_blob utilfdt_print_data fuel m blob d1)
               (dump_blob utilfdt_print_data fuel m blob d2).
Proof.
  unfold dump_blob.
  repeat first [ apply same_dump_header | apply same_rsvmap_loop
               | apply same_walk | same_step ].
Qed.

Lemma same_plausible m p n : same_but_out (plausible m p n) (plausible m p n).
Proof. unfold plausible. repeat same_step. Qed.

Lemma same_scan_loop (fuel : nat) (m : buffer) (d1 d2 : bool)
      (file : string) (buf endp p : Z) :
  same_but_out (scan_loop fuel m d1 file buf endp p)
               (scan_loop fuel m d2 file buf endp p).
Proof.
  revert p. induction fuel as [|f IH]; intros p; cbn [scan_loop].
  - apply same_out_of_fuel.
  - apply same_bind; [apply same_rd|]. intros [c|]; [|apply same_ret].
    apply same_bind; [apply same_rd|]. intros magic.
    apply same_bind.
    + destruct (magic =? FDT_MAGIC); [|apply same_ret].
      apply same_bind; [apply same_plausible|].
      intros [|]; [apply same_ret|].
      apply same_bind; [|intros _; apply same_ret].
      destruct d1, d2; same_step.
    + intros [|]; [apply same_ret|apply IH].
Qed.

Lemma same_read_loop fuel new_path fails file left buf :
  same_but_out (read_loop fuel new_path fails file left buf)
               (read_loop fuel new_path fails file left buf).
Proof.
  revert file left buf.
  induction fuel as [|f IH]; intros file left buf; cbn [read_loop];
    destruct (left >? 0); try apply same_ret; [apply same_out_of_fuel|].
  destruct (fails && _); [apply same_die|apply IH].
Qed.

Lemma same_dump_live_files fuel path l depth :
  same_but_out (dump_live_files utilfdt_print_data fuel path l depth)
               (dump_live_files utilfdt_print_data fuel path l depth).
Proof.
  induction l as [|[d_name f|d_name sub|d_name|d_name] r IH];
    cbn [dump_live_files]; try assumption; [apply same_ret|].
  apply same_bind; [|intros _; assumption].
  unfold dump_live_file.
  repeat first [ apply same_read_loop | apply same_die | same_step ].
Qed.

Lemma same_dump_live_internal fuel dir (d1 d2 : bool) :
  forall path depth,
    same_but_out
      (dump_live_internal utilfdt_print_data fuel path dir d1 depth)
      (dump_live_internal utilfdt_print_data fuel path dir d2 depth).
Proof.
  induction dir as [d_name f|d_name entries IH|d_name|d_name]
    using entry_tree_ind; intros path depth; cbn [dump_live_internal];
    try apply same_die.
  apply same_bind; [apply same_dump_live_files|intros _].
  induction IH as [|e r He Hr IHr]; [apply same_ret|].
  destruct e as [n f|n sub|n|n]; try exact IHr;
    (destruct (is_dot n); [exact IHr|]);
    (apply same_bind; [apply same_printf|intros _]);
    (apply same_bind; [apply He|intros _]);
    (apply same_bind; [apply same_printf|intros _]);
    exact IHr.
Qed.

(** X2: diagnostic mode changes nothing but standard output.  For
    every input and with or without the scan, the run with [-d] and the
    run without it end in the same way (the same value returned or exit
    status, or the same fault) and write the same text to standard
    error. *)
Theorem debug_changes_stdout_only (fuel : nat) (scan : bool) (file : string)
        (i : input) (io : stdio) :
  fst (main utilfdt_print_data fuel true scan file i io)
  = fst (main utilfdt_print_data fuel false scan file i io)
  /\ err (snd (main utilfdt_print_data fuel true scan file i io))
     = err (snd (main utilfdt_print_data fuel false scan file i io)).
Proof.
  assert (S : same_but_out (main utilfdt_print_data fuel true scan file i)
                           (main utilfdt_print_data fuel false scan file i)).
  { destruct i as [|root| |m]; cbn [main].
    - apply same_die.
    - apply same_bind; [|intros _; apply same_ret].
      unfold dump_live.
      repeat first [ apply same_dump_live_internal | same_step ].
    - apply same_die.
    - apply same_bind.
      + destruct scan; [|apply same_ret]. unfold scan_blob.
        apply same_bind; [apply same_scan_loop|].
        intros [p|]; repeat same_step.
      + intros buf. apply same_bind; [apply same_dump_blob|].
        intros _. apply same_ret. }
  now apply S.
Qed.

End DebugFacts.

(** ** When the process fails *)

Lemma plausible_no_exit m p n : no_exit (plausible m p n).
Proof. unfold plausible. repeat no_exit_step. Qed.

Lemma scan_loop_no_exit fuel m debug file buf endp p :
  no_exit (scan_loop fuel m debug file buf endp p).
Proof.
  revert p. induction fuel as [|f IH]; intros p; cbn [scan_loop];
    repeat first [ apply plausible_no_exit | apply IH | no_exit_step ].
Qed.

Section StatusFacts.

Variable utilfdt_print_data : list byte -> string.















End StatusFacts.

(** ** Reads that succeed are inside the buffer *)

Lemma span_some_inside (m : buffer) (a n : Z) (l : list byte) :
  span m a n = Some l -> 0 < n ->
  buf_base m <= a /\ a + n <= buf_base m + buf_len m.
Proof.
  unfold span. intros E Hn.
  destruct (n <? 0); [discriminate|].
  destruct (Z.ltb_spec a (buf_base m)); [discriminate|].
  destruct (Z.eqb_spec
              (Z.of_nat (List.length (firstn (Z.to_nat n) (bytes_from m a))))
              n) as [L|]; [|discriminate].
  split; [assumption|].
  rewrite length_firstn in L.
  assert (Hle : n <= Z.of_nat (List.length (bytes_from m a))) by lia.
  unfold bytes_from in Hle.
  destruct (Z.ltb_spec a (buf_base m)); [lia|].
  rewrite length_skipn in Hle. unfold buf_len. lia.
Qed.

Lemma load32_some_inside (m : buffer) (a v : Z) :
  load32 m a = Some v -> buf_base m <= a /\ a + 4 <= buf_base m + buf_len m.
Proof.
  unfold load32. destruct (span m a 4) as [l|] eqn:E; [|discriminate].
  intros _. apply (span_some_inside m a 4 l E). lia.
Qed.

Lemma load64_some_inside (m : buffer) (a v : Z) :
  load64 m a = Some v -> buf_base m <= a /\ a + 8 <= buf_base m + buf_len m.
Proof.
  unfold load64. destruct (span m a 8) as [l|] eqn:E; [|discriminate].
  intros _. apply (span_some_inside m a 8 l E). lia.
Qed.

(** ** The reservation map always comes to an end *)

Lemma rsvmap_loop_ends_from (m : buffer) (q : Z) :
  forall (fuel : nat) (i : Z) (io : stdio),
    buf_len m < 16 * Z.of_nat fuel
    \/ (buf_base m <= q + 16 * i
        /\ 0 <= buf_base m + buf_len m - (q + 16 * i) < 16 * Z.of_nat fuel) ->
    exists pairs : list (Z * Z),
      (forall j a s,
          nth_error pairs j = Some (a, s) ->
          load64 m (q + 16 * (i + Z.of_nat j)) = Some a
          /\ load64 m (q + 16 * (i + Z.of_nat j) + 8) = Some s
          /\ ~ (a = 0 /\ s = 0))
      /\ snd (rsvmap_loop fuel m q i io)
         = mkio (out io ++ cat (map memreserve_text pairs)) (err io)
      /\ ((fst (rsvmap_loop fuel m q i io) = Ok tt
           /\ load64 m (q + 16 * (i + Z.of_nat (List.length pairs))) = Some 0
           /\ load64 m (q + 16 * (i + Z.of_nat (List.length pairs)) + 8)
              = Some 0)
          \/ (fst (rsvmap_loop fuel m q i io) = Fault
              /\ (load64 m (q + 16 * (i + Z.of_nat (List.length pairs)))
                  = None
                  \/ load64 m (q + 16 * (i + Z.of_nat (List.length pairs)) + 8)
                     = None))).
Proof.
  assert (Hio : forall io, io = mkio (out io ++ cat (map memreserve_text []))
                                    (err io)).
  { intros io. cbn. rewrite append_nil_r. now destruct io. }
  induction fuel as [|f IH]; intros i io H.
  - exfalso. unfold buf_len in H. lia.
  - cbn [rsvmap_loop].
    destruct (load64 m (q + 16 * i)) as [addr|] eqn:La.
    2:{ rewrite (bind_rd_none None _ _ eq_refl).
        exists []. cbn [List.length Z.of_nat fst snd]. rewrite Z.add_0_r.
        split; [intros [|j] a s E; discriminate|].
        split; [apply Hio|]. right. split; [reflexivity|now left]. }
    rewrite (bind_rd_some (Some addr) addr _ _ eq_refl).
    destruct (load64 m (q + 16 * i + 8)) as [size|] eqn:Ls.
    2:{ rewrite (bind_rd_none None _ _ eq_refl).
        exists []. cbn [List.length Z.of_nat fst snd]. rewrite Z.add_0_r.
        split; [intros [|j] a s E; discriminate|].
        split; [apply Hio|]. right. split; [reflexivity|now right]. }
    rewrite (bind_rd_some (Some size) size _ _ eq_refl).
    destruct ((addr =? 0) && (size =? 0)) eqn:Ez.
    + apply Bool.andb_true_iff in Ez. destruct Ez as (Ea & Es).
      apply Z.eqb_eq in Ea, Es. subst addr size.
      exists []. cbn [List.length Z.of_nat ret fst snd]. rewrite Z.add_0_r.
      split; [intros [|j] a s E; discriminate|].
      split; [apply Hio|]. left. now repeat split.
    + rewrite !bind_printf.
      pose proof (load64_some_inside _ _ _ La) as Ia.
      pose proof (load64_some_inside _ _ _ Ls) as Is.
      destruct (IH (i + 1)
                   (mkio (out io ++ "/memreserve/ " ++ Printf.x_alt addr ++ " "
                          ++ Printf.x_alt size ++ ";" ++ nl) (err io)))
        as (pairs & Hent & Hout & Hend).
      { right. unfold buf_len in *. lia. }
      exists ((addr, size) :: pairs). split; [|split].
      * intros [|j] a s E.
        -- cbn in E. inversion E. subst a s.
           cbn [Z.of_nat]. rewrite Z.add_0_r. repeat split; try assumption.
           intros (Ha & Hs). subst addr size. discriminate.
        -- replace (i + Z.of_nat (S j)) with (i + 1 + Z.of_nat j) by lia.
           now apply Hent.
      * rewrite Hout. cbn [out err map cat fold_right].
        fold (cat (map memreserve_text pairs)).
        unfold memreserve_text at 2. cbn [fst snd].
        now rewrite !append_assoc.
      * replace (i + Z.of_nat (List.length ((addr, size) :: pairs)))
          with (i + 1 + Z.of_nat (List.length pairs))
          by (cbn [List.length]; lia).
        exact Hend.
Qed.

(** X4: the reader of the reservation map takes at most one turn for
    every 16 bytes of the buffer, and one more.  Within that many turns
    it has printed the directives of the pairs it went through, none
    of them zero in both halves, and has then either met a pair that
    is zero in both halves, where alone it returns, or gone on to a
    pair that is not inside the buffer.  So a map without terminator is
    read past the end of the buffer: nothing bounds the reader but the
    terminator. *)
Theorem rsvmap_loop_ends (fuel : nat) (m : buffer) (p_rsvmap : Z)
        (io : stdio) :
  buf_len m < 16 * Z.of_nat fuel ->
  (exists pairs : list (Z * Z),
      (forall j a s,
          nth_error pairs j = Some (a, s) ->
          load64 m (p_rsvmap + 16 * Z.of_nat j) = Some a
          /\ load64 m (p_rsvmap + 16 * Z.of_nat j + 8) = Some s
          /\ ~ (a = 0 /\ s = 0))
      /\ snd (rsvmap_loop fuel m p_rsvmap 0 io)
         = mkio (out io ++ cat (map memreserve_text pairs)) (err io)
      /\ let q := p_rsvmap + 16 * Z.of_nat (List.length pairs) in
         (fst (rsvmap_loop fuel m p_rsvmap 0 io) = Ok tt
          /\ load64 m q = Some 0 /\ load64 m (q + 8) = Some 0)
         \/ (fst (rsvmap_loop fuel m p_rsvmap 0 io) = Fault
             /\ (load64 m q = None \/ load64 m (q + 8) = None)))
  /\ ((forall j : nat,
          ~ (load64 m (p_rsvmap + 16 * Z.of_nat j) = Some 0
             /\ load64 m (p_rsvmap + 16 * Z.of_nat j + 8) = Some 0)) ->
      fst (rsvmap_loop fuel m p_rsvmap 0 io) = Fault).
Proof.
  intros Hfuel.
  destruct (rsvmap_loop_ends_from m p_rsvmap fuel 0 io (or_introl Hfuel))
    as (pairs & Hent & Hout & Hend).
  cbn [Z.add] in Hent, Hend.
  split.
  - exists pairs. split; [exact Hent|]. split; [exact Hout|]. exact Hend.
  - intros Hno. destruct Hend as [(_ & Ha & Hs)|(Hf & _)]; [|exact Hf].
    now elim (Hno (List.length pairs)).
Qed.

(** ** A file shorter than the header *)

Section ShortFacts.

Variable utilfdt_print_data : list byte -> string.

(** X5: [dump_blob] reads five fields of the header, up to byte 24,
    before it prints anything and without looking at the length of the
    buffer: a blob with fewer than 24 bytes left in the buffer is read
    past its end, and nothing is printed, not even the version marker. *)
Theorem short_header_faults (fuel : nat) (m : buffer) (blob : Z)
        (debug : bool) (io : stdio) :
  buf_base m + buf_len m < blob + 24 ->
  dump_blob utilfdt_print_data fuel m blob debug io = (Fault, io).
Proof.
  intros Hshort. unfold dump_blob.
  unfold bind at 1, rd at 1.
  destruct (hdr m blob o_off_mem_rsvmap); [|reflexivity].
  unfold bind at 1, rd at 1.
  destruct (hdr m blob o_off_dt_struct); [|reflexivity].
  unfold bind at 1, rd at 1.
  destruct (hdr m blob o_off_dt_strings); [|reflexivity].
  unfold bind at 1, rd at 1.
  destruct (hdr m blob o_version) as [v|] eqn:Hv; [|reflexivity].
  exfalso. unfold hdr, o_version in Hv.
  apply load32_some_inside in Hv. lia.
Qed.

End ShortFacts.

(** ** A file that gives less than its size *)

Lemma read_loop_starved (fuel : nat) (new_path : string) :
  forall (file buf : list byte) (left : Z) (io : stdio),
    Z.of_nat (List.length file) < left ->
    read_loop fuel new_path false file left buf io = (OutOfFuel, io).
Proof.
  induction fuel as [|f IH]; intros file buf left io Hlt; cbn [read_loop];
    (destruct (Z.gtb_spec left 0); [|lia]); [reflexivity|].
  apply IH. rewrite firstn_all2 by lia.
  rewrite skipn_all. cbn [List.length]. lia.
Qed.

Section StarvedFacts.

Variable utilfdt_print_data : list byte -> string.

(** X6: when a regular file gives fewer bytes than the chunk that is
    to be read (its size as [stat] reported it, or 4096 if that is
    less), the read loop never ends: at the end of the file [read]
    returns 0, [left] stays above 0 and the loop has no other way out.
    The name of the property is on standard output by then, its value
    never follows. *)
Theorem live_file_starved (fuel : nat) (path d_name : string) (st_size : Z)
        (content : list byte) (depth : Z) (io : stdio) :
  Z.of_nat (List.length content) < st_size ->
  Z.of_nat (List.length content) < 4096 ->
  dump_live_file utilfdt_print_data fuel path d_name (plain st_size content)
                 depth io =
    (OutOfFuel,
     mkio (out io ++ Printf.pad (depth * shift) ++ d_name) (err io)).
Proof.
  intros Hsz Hch. unfold dump_live_file, plain.
  cbn [f_size f_opens f_bytes f_fails]. rewrite bind_printf.
  unfold bind at 1. cbn [ret]. unfold bind at 1. cbn [ret].
  change buf_alloc with 4096. unfold bind at 1.
  rewrite read_loop_starved; [reflexivity|].
  destruct (Z.gtb_spec st_size 4096); lia.
Qed.

End StarvedFacts.

(** ** The scan and what follows it *)

Lemma plausible_quiet (m : buffer) (p n : Z) (io : stdio) :
  snd (plausible m p n io) = io.
Proof. rewrite plausible_pure. reflexivity. Qed.

Lemma scan_loop_quiet (fuel : nat) (m : buffer) (file : string)
      (buf endp : Z) :
  forall (p : Z) (io : stdio),
    snd (scan_loop fuel m false file buf endp p io) = io.
Proof.
  induction fuel as [|f IH]; intros p io; cbn [scan_loop]; [reflexivity|].
  unfold bind at 1, rd at 1.
  destruct (memchr m p smagic0 (ulong (endp - p - 4))) as [[c|]|];
    try reflexivity.
  unfold bind at 1, rd at 1.
  destruct (hdr m c o_magic) as [magic|]; [|reflexivity].
  unfold bind at 1.
  destruct (magic =? FDT_MAGIC); [|apply IH].
  unfold bind at 1. rewrite plausible_pure.
  destruct (fst (plausible m c (endp - c) io0)) as [[|]| |n|];
    try reflexivity.
  unfold bind at 1. cbn [ret]. apply IH.
Qed.

Lemma scan_loop_from (fuel : nat) (m : buffer) (debug : bool)
      (file : string) (buf endp : Z) :
  forall (p q : Z) (io io' : stdio),
    scan_loop fuel m debug file buf endp p io = (Ok (Some q), io') ->
    p <= q.
Proof.
  induction fuel as [|f IH]; intros p q io io'; cbn [scan_loop];
    [discriminate|].
  unfold bind at 1, rd at 1.
  destruct (memchr m p smagic0 (ulong (endp - p - 4))) as [[c|]|] eqn:Hc;
    try discriminate.
  apply memchr_found_after in Hc.
  unfold bind at 1, rd at 1.
  destruct (hdr m c o_magic) as [magic|]; [|discriminate].
  unfold bind at 1.
  assert (Hnext : forall io1,
             scan_loop f m debug file buf endp (c + 1) io1
             = (Ok (Some q), io') -> p <= q)
    by (intros io1 E; apply IH in E; lia).
  destruct (magic =? FDT_MAGIC); [|apply Hnext].
  unfold bind at 1.
  destruct (plausible m c (endp - c) io) as [[[|]| |n|] io1];
    try discriminate.
  - cbn [ret]. intros E. inversion E. lia.
  - destruct debug; [rewrite bind_printf|unfold bind at 1];
      cbn [ret]; apply Hnext.
Qed.

(** X7: without diagnostic mode the scan writes one line and no more:
    when it accepts an offset, standard output has gained the line that
    reports this offset, which is at or after the start of the file,
    and standard error is as it was. *)
Theorem scan_blob_quiet (fuel : nat) (m : buffer) (file : string)
        (p : Z) (io io' : stdio) :
  scan_blob fuel m false file io = (Ok p, io') ->
  io' = mkio (out io ++ file ++ ": found fdt at offset "
              ++ Printf.x_alt (ulong (p - buf_base m)) ++ nl)
             (err io)
  /\ buf_base m <= p.
Proof.
  unfold scan_blob. unfold bind at 1.
  pose proof (scan_loop_quiet fuel m file (buf_base m)
                (buf_base m + buf_len m) (buf_base m) io) as Q.
  destruct (scan_loop fuel m false file (buf_base m)
                      (buf_base m + buf_len m) (buf_base m) io)
    as [[[q|]| |n|] io1] eqn:Hs; try discriminate.
  cbn [snd] in Q. subst io1. rewrite bind_printf. cbn [ret].
  intros E. inversion E. subst q. split; [reflexivity|].
  eapply scan_loop_from. exact Hs.
Qed.

Section ScanThenDump.

Variable utilfdt_print_data : list byte -> string.

(** X8: an offset that the scan accepts has the fixed part of a header,
    28 bytes, inside the file, since the tests have read it.  So the
    decoding that follows does not fail on its first reads: it prints
    the version marker line right behind the line of the scan. *)
Theorem scan_then_dump (fuel : nat) (m : buffer) (debug : bool)
        (file : string) (p : Z) (io io1 : stdio) :
  scan_blob fuel m debug file io = (Ok p, io1) ->
  buf_base m <= p
  /\ p + 28 <= buf_base m + buf_len m
  /\ exists rest,
      out (snd (dump_blob utilfdt_print_data fuel m p debug io1))
      = out io1 ++ "/dts-v1/;" ++ nl ++ rest.
Proof.
  unfold scan_blob. unfold bind at 1.
  destruct (scan_loop fuel m debug file (buf_base m)
                      (buf_base m + buf_len m) (buf_base m) io)
    as [[[q|]| |n|] io2] eqn:Hs; try discriminate.
  rewrite bind_printf. cbn [ret]. intros E. inversion E. subst q. clear E.
  destruct (scan_loop_accepts _ _ _ _ _ _ _ _ _ _ Hs)
    as (Hm & v & lc & ts & os & ot & Hv & Hlc & Hts & Hos & Hot & _).
  pose proof (scan_loop_from _ _ _ _ _ _ _ _ _ _ Hs) as Hp.
  unfold hdr, o_last_comp_version in Hlc.
  pose proof (load32_some_inside _ _ _ Hlc) as (_ & Hend).
  split; [exact Hp|]. split; [lia|].
  assert (Hrsv : exists x, hdr m p o_off_mem_rsvmap = Some x).
  { unfold hdr, load32, o_off_mem_rsvmap.
    destruct (span_inside m (p + 16) 4) as (l & El); try lia.
    rewrite El. cbn [option_map]. eauto. }
  destruct Hrsv as (orsv & Hrsv).
  rewrite (dump_blob_start _ _ _ _ _ _ _ _ _ _ _ Hrsv Hos Hot Hv Hts).
  match goal with
  | |- context [?c (mkio ?o ?e)] =>
      assert (W : writes_on c)
        by (repeat first [ apply dump_header_writes_on
                         | apply rsvmap_loop_writes_on
                         | apply walk_writes_on | writes_on_step ]);
      destruct (W (mkio o e)) as (w & e' & Ew)
  end.
  exists w. rewrite Ew. cbn [out]. now rewrite !append_assoc.
Qed.

End ScanThenDump.

(** ** The first lines of the output *)



Section FirstLines.

Variable utilfdt_print_data : list byte -> string.



End FirstLines.


(** ** The scan as a whole *)

Lemma hdr_inside (m : buffer) (k off : Z) :
  buf_base m <= k -> 0 <= off -> k + off + 4 <= buf_base m + buf_len m ->
  exists v, hdr m k off = Some v.
Proof.
  intros Hk Ho He. unfold hdr, load32.
  destruct (span_inside m (k + off) 4) as (l & E); try lia.
  rewrite E. cbn [option_map]. eauto.
Qed.

Lemma plausible_no_fault (m : buffer) (k n : Z) (io : stdio) :
  buf_base m <= k -> k + 28 <= buf_base m + buf_len m ->
  fst (plausible m k n io) <> Fault.
Proof.
  intros Hk He.
  destruct (hdr_inside m k o_version Hk) as (v & Hv);
    [unfold o_version; lia..|].
  destruct (hdr_inside m k o_last_comp_version Hk) as (lc & Hlc);
    [unfold o_last_comp_version; lia..|].
  destruct (hdr_inside m k o_totalsize Hk) as (ts & Hts);
    [unfold o_totalsize; lia..|].
  destruct (hdr_inside m k o_off_dt_struct Hk) as (os & Hos);
    [unfold o_off_dt_struct; lia..|].
  destruct (hdr_inside m k o_off_dt_strings Hk) as (ot & Hot);
    [unfold o_off_dt_strings; lia..|].
  unfold plausible, bind, rd, ret. rewrite Hv, Hlc, Hts, Hos, Hot.
  repeat match goal with
         | |- context [if ?b then _ else _] => destruct b; try discriminate
         end.
Qed.

Lemma scan_loop_fault (fuel : nat) (m : buffer) (debug : bool)
      (file : string) (buf : Z) :
  let endp := buf_base m + buf_len m in
  forall (p : Z) (io io' : stdio),
    buf_base m <= p -> p + 4 <= endp -> endp - p - 4 < 2 ^ 64 ->
    scan_loop fuel m debug file buf endp p io = (Fault, io') ->
    exists k,
      p <= k /\ k + 4 < endp /\ hdr m k o_magic = Some FDT_MAGIC
      /\ endp < k + 28.
Proof.
  intros endp.
  induction fuel as [|f IH]; intros p io io' Hp H4 Hmax; cbn [scan_loop];
    [discriminate|].
  pose proof (probe_inside m p Hp H4 Hmax) as Hprobe. fold endp in Hprobe.
  unfold bind at 1, rd at 1.
  destruct (memchr m p smagic0 (ulong (endp - p - 4))) as [[c|]|];
    [|discriminate|contradiction].
  destruct Hprobe as (Hpc & Hc4 & Hmag).
  unfold bind at 1, rd at 1.
  destruct (hdr m c o_magic) as [magic|] eqn:Hm; [|contradiction].
  unfold bind at 1.
  assert (Hnext : forall io1,
             scan_loop f m debug file buf endp (c + 1) io1 = (Fault, io') ->
             exists k,
               p <= k /\ k + 4 < endp /\ hdr m k o_magic = Some FDT_MAGIC
               /\ endp < k + 28).
  { intros io1 E. apply IH in E; try lia.
    destruct E as (k & Hk & Hrest). exists k. split; [lia|exact Hrest]. }
  destruct (Z.eqb_spec magic FDT_MAGIC) as [->|Hne]; [|apply Hnext].
  unfold bind at 1.
  destruct (plausible m c (endp - c) io) as [[[|]| |n|] io1] eqn:Hpl;
    try discriminate.
  - destruct debug; [rewrite bind_printf|unfold bind at 1];
      cbn [ret]; apply Hnext.
  - intros _. exists c. repeat split; try assumption.
    destruct (Z.lt_ge_cases endp (c + 28)) as [|Hge]; [assumption|].
    exfalso.
    apply (plausible_no_fault m c (endp - c) io); [lia|exact Hge|].
    now rewrite Hpl.
Qed.

(** X9: what the scan accepts is a header that passes the test: at the
    offset found are the bytes of the magic number, the version is at
    most 17, the last compatible version is below 17, and the total
    size and the offsets of the structure block and of the strings
    block are each smaller than the number of bytes from there to the
    end of the file. *)
Theorem scan_blob_accepts (fuel : nat) (m : buffer) (debug : bool)
        (file : string) (p : Z) (io io' : stdio) :
  scan_blob fuel m debug file io = (Ok p, io') ->
  let this_len := buf_base m + buf_len m - p in
  hdr m p o_magic = Some FDT_MAGIC
  /\ exists version last_comp_version totalsize off_dt_struct off_dt_strings,
      hdr m p o_version = Some version
      /\ hdr m p o_last_comp_version = Some last_comp_version
      /\ hdr m p o_totalsize = Some totalsize
      /\ hdr m p o_off_dt_struct = Some off_dt_struct
      /\ hdr m p o_off_dt_strings = Some off_dt_strings
      /\ version <= 17 /\ last_comp_version < 17
      /\ totalsize < this_len /\ off_dt_struct < this_len
      /\ off_dt_strings < this_len.
Proof.
  unfold scan_blob. unfold bind at 1.
  destruct (scan_loop fuel m debug file (buf_base m)
                      (buf_base m + buf_len m) (buf_base m) io)
    as [[[q|]| |n|] io2] eqn:Hs; try discriminate.
  rewrite bind_printf. cbn [ret]. intros E. inversion E. subst q.
  cbv zeta. eapply scan_loop_accepts. exact Hs.
Qed.

(** X10: in a file of 4 bytes or more the scan takes the first
    candidate that passes.  Before the offset it accepts, and, when it
    gives up with its error, at every offset that leaves more than 4
    bytes, a cell that holds the magic number starts a header that was
    read and failed one of the tests. *)
Theorem scan_blob_first (fuel : nat) (m : buffer) (debug : bool)
        (file : string) (io io' : stdio) (r : res Z) :
  4 <= buf_len m < 2 ^ 64 ->
  scan_blob fuel m debug file io = (r, io') ->
  (exists p, r = Ok p) \/ r = Exit 1 ->
  forall k,
    buf_base m <= k ->
    k < match r with
        | Ok p => p
        | _ => buf_base m + buf_len m - 4
        end ->
    hdr m k o_magic = Some FDT_MAGIC ->
    fst (plausible m k (buf_base m + buf_len m - k) io0) = Ok false.
Proof.
  intros Hlen. unfold scan_blob. unfold bind at 1.
  pose proof (scan_loop_skips fuel m debug file (buf_base m) (buf_base m))
    as Hskip. cbv zeta in Hskip.
  destruct (scan_loop fuel m debug file (buf_base m)
                      (buf_base m + buf_len m) (buf_base m) io)
    as [[[q|]| |n|] io2] eqn:Hs.
  - rewrite bind_printf. cbn [ret]. intros E _. inversion E. subst r.
    intros k Hk Hlt Hm.
    apply (Hskip (Some q) io io2) with (k := k); try assumption; lia.
  - cbn [die]. intros E _. inversion E. subst r.
    intros k Hk Hlt Hm.
    apply (Hskip None io io2) with (k := k); try assumption; lia.
  - intros E [(p & Hr)|Hr]; subst r; discriminate.
  - intros E [(p & Hr)|Hr]; subst r; [discriminate|].
    exfalso. inversion E as [[En Eio]].
    now apply (scan_loop_no_exit fuel m debug file (buf_base m)
                 (buf_base m + buf_len m) (buf_base m) io n); rewrite Hs.
  - intros E [(p & Hr)|Hr]; subst r; discriminate.
Qed.

(** X11: in a file of 4 bytes or more the scan ends within one turn
    for every offset it can probe, and the probe and the comparison of
    the magic number stay inside the file.  The scan reads outside the
    file in one case only: a cell that holds the magic number with
    fewer than 28 bytes from there to the end of the file, whose header
    fields the test reads all the same. *)
Theorem scan_blob_reads (fuel : nat) (m : buffer) (debug : bool)
        (file : string) (io : stdio) :
  let endp := buf_base m + buf_len m in
  4 <= buf_len m < 2 ^ 64 ->
  (Z.to_nat (buf_len m - 4) < fuel)%nat ->
  fst (scan_blob fuel m debug file io) <> OutOfFuel
  /\ (fst (scan_blob fuel m debug file io) = Fault ->
      exists k,
        buf_base m <= k /\ k + 4 < endp
        /\ hdr m k o_magic = Some FDT_MAGIC /\ endp < k + 28).
Proof.
  intros endp Hlen Hfuel.
  pose proof (scan_loop_ends fuel m debug file (buf_base m) (buf_base m) io)
    as Hends. cbv zeta in Hends.
  pose proof (scan_loop_fault fuel m debug file (buf_base m) (buf_base m) io)
    as Hfault. cbv zeta in Hfault. fold endp in Hends, Hfault.
  remember (scan_blob fuel m debug file io) as R eqn:ER.
  unfold scan_blob in ER. unfold bind at 1 in ER. fold endp in ER.
  destruct (scan_loop fuel m debug file (buf_base m) endp (buf_base m) io)
    as [[[q|]| |n|] io2] eqn:Hs.
  - rewrite bind_printf in ER. cbn [ret] in ER. subst R.
    split; discriminate.
  - cbn [die] in ER. subst R. split; discriminate.
  - subst R. cbn [fst]. split; [discriminate|].
    intros _. apply (Hfault io2); unfold endp; try lia. reflexivity.
  - subst R. split; discriminate.
  - exfalso. apply Hends; unfold endp; try lia. reflexivity.
Qed.

(** ** The order of the live tree's output *)

Lemma bind_ext {A B} (c : M A) (k1 k2 : A -> M B) (io : stdio) :
  (forall a io', k1 a io' = k2 a io') -> bind c k1 io = bind c k2 io.
Proof.
  intros H. unfold bind. destruct (c io) as [[a| |n|] io'];
    try reflexivity. apply H.
Qed.

Section OrderFacts.

Variable utilfdt_print_data : list byte -> string.

Lemma dump_live_files_of_subs (fuel : nat) (path : string) (l : list entry)
      (depth : Z) (io : stdio) :
  dump_live_files utilfdt_print_data fuel path (filter is_sub l) depth io
  = ret tt io.
Proof.
  induction l as [|[n f|n sub|n|n] r IH]; cbn [filter is_sub];
    try assumption; [reflexivity| |];
    (destruct (negb (is_dot n)); [|assumption]);
    cbn [dump_live_files]; assumption.
Qed.

Lemma dump_live_files_sorted (fuel : nat) (path : string)
      (l l' : list entry) (depth : Z) :
  forall io,
    dump_live_files utilfdt_print_data fuel path
                    (filter is_reg l ++ filter is_sub l')%list depth io
    = dump_live_files utilfdt_print_data fuel path l depth io.
Proof.
  induction l as [|[n f|n sub|n|n] r IH]; intros io;
    cbn [filter is_reg app]; try apply IH.
  - rewrite dump_live_files_of_subs. reflexivity.
  - cbn [dump_live_files]. apply bind_ext. intros _ io'. apply IH.
Qed.

(** The second loop, for any function that unfolds as it does. *)
Lemma dirs_sorted (dirs : list entry -> M unit)
      (step : string -> entry -> M unit -> M unit) :
  (forall n de k1 k2,
      (forall io, k1 io = k2 io) ->
      forall io, step n de k1 io = step n de k2 io) ->
  (forall l io,
      dirs l io =
        match l with
        | [] => ret tt
        | (Dir n _ | NoDir n) as de :: r =>
            if is_dot n then dirs r else step n de (dirs r)
        | _ :: r => dirs r
        end io) ->
  forall l io,
    dirs (filter is_reg l ++ filter is_sub l)%list io = dirs l io.
Proof.
  intros Hstep Hdirs.
  assert (Hsub : forall l io, dirs (filter is_sub l) io = dirs l io).
  { induction l as [|[n f|n sub|n|n] r IH]; intros io;
      cbn [filter is_sub].
    - reflexivity.
    - rewrite (Hdirs (Reg n f :: r)). apply IH.
    - destruct (is_dot n) eqn:Hdot; cbn [negb].
      + rewrite (Hdirs (Dir n sub :: r)), Hdot. apply IH.
      + rewrite (Hdirs (Dir n sub :: filter is_sub r)),
          (Hdirs (Dir n sub :: r)), Hdot.
        apply Hstep. exact IH.
    - destruct (is_dot n) eqn:Hdot; cbn [negb].
      + rewrite (Hdirs (NoDir n :: r)), Hdot. apply IH.
      + rewrite (Hdirs (NoDir n :: filter is_sub r)),
          (Hdirs (NoDir n :: r)), Hdot.
        apply Hstep. exact IH.
    - rewrite (Hdirs (Other n :: r)). apply IH. }
  assert (Hreg : forall l l' io,
             dirs (filter is_reg l ++ l')%list io = dirs l' io).
  { induction l as [|[n f|n sub|n|n] r IH]; intros l' io;
      cbn [filter is_reg app]; try apply IH; [reflexivity|].
    rewrite (Hdirs (Reg n f :: _)). apply IH. }
  intros l io. rewrite Hreg. apply Hsub.
Qed.

(** X14: what is printed for a directory depends only on its regular
    files, in the order of the listing, and then on its directories
    other than [.] and [..], in the order of the listing: the
    properties always come before the child nodes, however [readdir]
    mixes them, and entries of any other kind leave no trace. *)
Theorem live_listing_order (fuel : nat) (path d_name : string)
        (entries : list entry) (debug : bool) (depth : Z) (io : stdio) :
  dump_live_internal utilfdt_print_data fuel path
                     (Dir d_name (filter is_reg entries
                                  ++ filter is_sub entries)%list)
                     debug depth io
  = dump_live_internal utilfdt_print_data fuel path (Dir d_name entries)
                       debug depth io.
Proof.
  cbn [dump_live_internal].
  match goal with
  | |- bind _ (fun _ => ?d _) _ = _ => set (dirs := d)
  end.
  assert (Hdirs : forall l io',
             dirs (filter is_reg l ++ filter is_sub l)%list io' = dirs l io').
  { apply (dirs_sorted dirs
             (fun n de k =>
                printf (Printf.pad (depth * shift) ++ n ++ " {" ++ nl) ;;;
                dump_live_internal utilfdt_print_data fuel
                                   (path ++ "/" ++ n) de debug (depth + 1) ;;;
                printf (Printf.pad (depth * shift) ++ "};" ++ nl) ;;;
                k)).
    - intros n de k1 k2 Hk io'.
      apply bind_ext. intros _ io1. apply bind_ext. intros _ io2.
      apply bind_ext. intros _ io3. apply Hk.
    - intros [|[n f|n sub|n|n] r] io'; reflexivity. }
  unfold bind.
  rewrite dump_live_files_sorted.
  destruct (dump_live_files utilfdt_print_data fuel path entries depth io)
    as [[[]| |n|] io']; try reflexivity.
  apply Hdirs.
Qed.

End OrderFacts.

(** ** The path of the live tree *)

Lemma strip_rev_slashes (l : list ascii) :
  exists k, l = (repeat "/"%char k ++ strip_rev l)%list.
Proof.
  induction l as [|c l IH]; [exists O; reflexivity|].
  destruct l as [|c' r]; [exists O; reflexivity|].
  destruct IH as (k & E).
  change (strip_rev (c :: c' :: r))
    with (if Ascii.eqb c "/" then strip_rev (c' :: r) else c :: c' :: r).
  destruct (Ascii.eqb_spec c "/") as [->|Hne].
  - exists (S k). cbn [repeat app]. f_equal. exact E.
  - exists O. reflexivity.
Qed.

Lemma strip_rev_no_slash (l r : list ascii) :
  strip_rev l = ("/"%char :: r)%list -> r = [].
Proof.
  induction l as [|c l IH]; [discriminate|].
  destruct l as [|c' r'].
  - cbn. intros E. now inversion E.
  - change (strip_rev (c :: c' :: r'))
      with (if Ascii.eqb c "/" then strip_rev (c' :: r')
            else c :: c' :: r').
    destruct (Ascii.eqb_spec c "/") as [->|Hne].
    + exact IH.
    + intros E. inversion E. contradiction.
Qed.

Lemma strip_rev_nonempty (l : list ascii) : l <> [] -> strip_rev l <> [].
Proof.
  induction l as [|c l IH]; intros Hl; [contradiction|].
  destruct l as [|c' r]; [discriminate|].
  change (strip_rev (c :: c' :: r))
    with (if Ascii.eqb c "/" then strip_rev (c' :: r) else c :: c' :: r).
  destruct (Ascii.eqb c "/"); [|discriminate].
  apply IH. discriminate.
Qed.

Lemma string_of_list_ascii_app (a b : list ascii) :
  string_of_list_ascii (a ++ b) =
    string_of_list_ascii a ++ string_of_list_ascii b.
Proof.
  induction a as [|c a IH]; cbn; [reflexivity|]. now rewrite IH.
Qed.

Lemma list_ascii_of_string_app (a b : string) :
  list_ascii_of_string (a ++ b) =
    (list_ascii_of_string a ++ list_ascii_of_string b)%list.
Proof.
  induction a as [|c a IH]; cbn; [reflexivity|]. now rewrite IH.
Qed.

Lemma string_of_repeat (c : ascii) (k : nat) :
  string_of_list_ascii (repeat c k) = Printf.replicate k c.
Proof. induction k as [|k IH]; cbn; [reflexivity|]. now rewrite IH. Qed.

Lemma rev_repeat_same {A} (x : A) (k : nat) : rev (repeat x k) = repeat x k.
Proof.
  induction k as [|k IH]; [reflexivity|].
  cbn [repeat rev]. rewrite IH.
  clear IH. induction k as [|k IH]; [reflexivity|].
  cbn [repeat app]. now rewrite IH.
Qed.

(** X15: the path that [dump_live] prints and walks is the path given
    without the slashes at its end, but never without its first
    character: the path is the stripped path followed by slashes only,
    the stripped path ends with a slash only when it is the single
    slash, and it is empty only when the path is. *)
Theorem strip_trailing_spec (path : string) :
  (exists k, path = strip_trailing path ++ Printf.replicate k "/")
  /\ (forall s, strip_trailing path = s ++ "/" -> s = "")
  /\ (path <> "" -> strip_trailing path <> "").
Proof.
  unfold strip_trailing.
  set (l := rev (list_ascii_of_string path)).
  assert (Hpath : path = string_of_list_ascii (rev l))
    by (subst l; now rewrite rev_involutive, string_of_list_ascii_of_string).
  split; [|split].
  - destruct (strip_rev_slashes l) as (k & E). exists k.
    rewrite Hpath at 1. rewrite E at 1.
    rewrite rev_app_distr, rev_repeat_same, string_of_list_ascii_app.
    now rewrite string_of_repeat.
  - intros s E.
    apply (f_equal list_ascii_of_string) in E.
    rewrite list_ascii_of_string_of_list_ascii, list_ascii_of_string_app in E.
    apply (f_equal (@rev ascii)) in E.
    rewrite rev_involutive, rev_app_distr in E. cbn [list_ascii_of_string rev app] in E.
    apply strip_rev_no_slash in E.
    apply (f_equal (@rev ascii)) in E. rewrite rev_involutive in E.
    cbn [rev] in E.
    rewrite <- (string_of_list_ascii_of_string s), E. reflexivity.
  - intros Hne E.
    apply (f_equal list_ascii_of_string) in E.
    rewrite list_ascii_of_string_of_list_ascii in E.
    cbn [list_ascii_of_string] in E.
    apply (f_equal (@rev ascii)) in E. rewrite rev_involutive in E.
    cbn [rev] in E.
    apply (strip_rev_nonempty l); [|exact E].
    intros Hl. apply Hne. rewrite Hpath, Hl. reflexivity.
Qed.

(** ** The further theorems at concrete inputs *)

(** [prop_step] on the property of [file_nop]. *)
Lemma prop_step_witness :
  let m := file_nop in
  load32 m 4164 = Some FDT_PROP
  /\ load32 m (4164 + 4) = Some 3
  /\ cstring m (4188 + 0) = Some str_reg_name
  /\ span m 4176 3 = Some (B [1; 2; 3])
  /\ walk_step show_hex m false 4096 4188 17 4164 1 io0
     = (Ok (Continue 4180 1), mkio ("    reg = [01 02 03];" ++ nl) "").
Proof.
  assert (H1 : load32 file_nop 4164 = Some FDT_PROP)
    by (vm_compute; reflexivity).
  assert (H2 : load32 file_nop (4164 + 4) = Some 3)
    by (vm_compute; reflexivity).
  assert (H3 : load32 file_nop (4164 + 4 + 4) = Some 0)
    by (vm_compute; reflexivity).
  assert (H4 : cstring file_nop (4188 + 0) = Some str_reg_name)
    by (vm_compute; reflexivity).
  assert (H5 : span file_nop (prop_value 17 (to_int 3) (4164 + 4 + 4 + 4))
                    (to_int 3) = Some (B [1; 2; 3]))
    by (vm_compute; reflexivity).
  split; [exact H1|]. split; [exact H2|]. split; [exact H4|].
  split; [exact H5|].
  exact (proj1 (prop_step show_hex file_nop false 4096 4188 17 4164 1 3 0
                          str_reg_name (B [1; 2; 3]) io0 H1 H2 H3 H4 H5
                          ltac:(vm_compute; discriminate)
                          ltac:(vm_compute; reflexivity))).
Defined.


(** The failures of a run, each with its message and the status 1. *)
Example failures_run :
  main show_hex 1 false false "/t" Missing io0
  = (Exit 1, mkio "" ("could not open: /t" ++ nl))
  /\ main show_hex 1 false false "/t" Unreadable io0
     = (Exit 1, mkio "" ("could not read: /t" ++ nl))
  /\ main show_hex 10 false true "f" (File file_late_magic) io0
     = (Exit 1, mkio "" ("f: could not locate fdt magic" ++ nl))
  /\ main show_hex 1 false false "/t" (Directory (NoDir "t")) io0
     = (Exit 1,
        mkio ("/* dump of live tree at /t */" ++ nl ++ "/ {" ++ nl)
             ("Could not open /t directory" ++ nl))
  /\ main show_hex 1 false false "/t" (Directory live_closed) io0
     = (Exit 1,
        mkio ("/* dump of live tree at /t */" ++ nl ++ "/ {" ++ nl
              ++ "    status = [6f 6b 61 79 00];" ++ nl
              ++ "    secret {" ++ nl)
             ("Could not open /t/secret directory" ++ nl))
  /\ main show_hex 1 false false "/t" (Directory live_no_stat) io0
     = (Exit 1,
        mkio ("/* dump of live tree at /t */" ++ nl ++ "/ {" ++ nl
              ++ "    child {" ++ nl ++ "        gone")
             ("could not open: /t/child/gone" ++ nl)).
Proof. vm_compute. repeat split. Qed.

(** [rsvmap_loop_ends] on the map without terminator [rsv_open]: its
    two pairs are printed and the third is read past the end. *)
Lemma rsvmap_loop_ends_witness :
  buf_len rsv_open < 16 * Z.of_nat 3
  /\ (forall j : nat,
         ~ (load64 rsv_open (4096 + 16 * Z.of_nat j) = Some 0
            /\ load64 rsv_open (4096 + 16 * Z.of_nat j + 8) = Some 0))
  /\ fst (rsvmap_loop 3 rsv_open 4096 0 io0) = Fault
  /\ rsvmap_loop 3 rsv_open 4096 0 io0
     = (Fault,
        mkio ("/memreserve/ 0x1000 0x200;" ++ nl
              ++ "/memreserve/ 0x3000 0x1;" ++ nl) "").
Proof.
  assert (H0 : buf_len rsv_open < 16 * Z.of_nat 3)
    by (vm_compute; reflexivity).
  assert (Hno : forall j : nat,
             ~ (load64 rsv_open (4096 + 16 * Z.of_nat j) = Some 0
                /\ load64 rsv_open (4096 + 16 * Z.of_nat j + 8) = Some 0)).
  { intros j (Ha & Hs).
    pose proof (load64_some_inside _ _ _ Hs) as Hin.
    change (buf_base rsv_open) with 4096 in Hin.
    change (buf_len rsv_open) with 32 in Hin.
    assert (Hj : j = 0%nat \/ j = 1%nat) by lia.
    destruct Hj as [ -> | -> ]; vm_compute in Ha; discriminate. }
  split; [exact H0|]. split; [exact Hno|]. split.
  - exact (proj2 (rsvmap_loop_ends 3 rsv_open 4096 io0 H0) Hno).
  - vm_compute. reflexivity.
Defined.

(** [short_header_faults] on [file_short_header]. *)
Lemma short_header_faults_witness :
  buf_base file_short_header + buf_len file_short_header < 4096 + 24
  /\ dump_blob show_hex 10 file_short_header 4096 false io0 = (Fault, io0).
Proof.
  split; [vm_compute; reflexivity|].
  apply (short_header_faults show_hex 10 file_short_header 4096 false io0).
  vm_compute; reflexivity.
Defined.

(** [live_file_starved] on a file of 2 bytes with a size of 5. *)
Lemma live_file_starved_witness :
  Z.of_nat (List.length (B [111; 107])) < 5
  /\ dump_live_file show_hex 7 "/t" "status" (plain 5 (B [111; 107])) 1 io0
     = (OutOfFuel, mkio "    status" "").
Proof.
  split; [vm_compute; reflexivity|].
  apply (live_file_starved show_hex 7 "/t" "status" 5 (B [111; 107]) 1 io0);
    vm_compute; reflexivity.
Defined.

(** [scan_blob_quiet] on [file_decoy]. *)
Lemma scan_blob_quiet_witness :
  scan_blob 200 file_decoy false "f" io0
  = (Ok 4128, mkio ("f: found fdt at offset 0x20" ++ nl) "")
  /\ 4096 <= 4128.
Proof.
  assert (H : scan_blob 200 file_decoy false "f" io0
              = (Ok 4128, mkio ("f: found fdt at offset 0x20" ++ nl) ""))
    by (vm_compute; reflexivity).
  split; [exact H|].
  exact (proj2 (scan_blob_quiet 200 file_decoy "f" 4128 io0 _ H)).
Defined.

(** [scan_then_dump] on [file_decoy], in diagnostic mode. *)
Lemma scan_then_dump_witness :
  let io1 := mkio ("f: skipping fdt magic at offset 0" ++ nl
                   ++ "f: found fdt at offset 0x20" ++ nl) "" in
  scan_blob 200 file_decoy true "f" io0 = (Ok 4128, io1)
  /\ 4128 + 28 <= buf_base file_decoy + buf_len file_decoy
  /\ exists rest,
      out (snd (dump_blob show_hex 200 file_decoy 4128 true io1))
      = out io1 ++ "/dts-v1/;" ++ nl ++ rest.
Proof.
  assert (H : scan_blob 200 file_decoy true "f" io0
              = (Ok 4128,
                 mkio ("f: skipping fdt magic at offset 0" ++ nl
                       ++ "f: found fdt at offset 0x20" ++ nl) ""))
    by (vm_compute; reflexivity).
  split; [exact H|].
  exact (proj2 (scan_then_dump show_hex 200 file_decoy true "f" 4128 io0 _ H)).
Defined.

(** [scan_blob_accepts] on [file_decoy]. *)
Lemma scan_blob_accepts_witness :
  scan_blob 200 file_decoy false "f" io0
  = (Ok 4128, mkio ("f: found fdt at offset 0x20" ++ nl) "")
  /\ hdr file_decoy 4128 o_magic = Some FDT_MAGIC.
Proof.
  assert (H : scan_blob 200 file_decoy false "f" io0
              = (Ok 4128, mkio ("f: found fdt at offset 0x20" ++ nl) ""))
    by (vm_compute; reflexivity).
  split; [exact H|].
  exact (proj1 (scan_blob_accepts 200 file_decoy false "f" 4128 io0 _ H)).
Defined.

(** [scan_blob_first] on [file_decoy]: the header at offset 0 fails. *)
Lemma scan_blob_first_witness :
  4 <= buf_len file_decoy < 2 ^ 64
  /\ scan_blob 200 file_decoy false "f" io0
     = (Ok 4128, mkio ("f: found fdt at offset 0x20" ++ nl) "")
  /\ hdr file_decoy 4096 o_magic = Some FDT_MAGIC
  /\ fst (plausible file_decoy 4096
                    (buf_base file_decoy + buf_len file_decoy - 4096) io0)
     = Ok false.
Proof.
  assert (H0 : 4 <= buf_len file_decoy < 2 ^ 64)
    by (vm_compute; split; [discriminate|reflexivity]).
  assert (H : scan_blob 200 file_decoy false "f" io0
              = (Ok 4128, mkio ("f: found fdt at offset 0x20" ++ nl) ""))
    by (vm_compute; reflexivity).
  assert (Hm : hdr file_decoy 4096 o_magic = Some FDT_MAGIC)
    by (vm_compute; reflexivity).
  split; [exact H0|]. split; [exact H|]. split; [exact Hm|].
  exact (scan_blob_first 200 file_decoy false "f" io0 _ (Ok 4128) H0 H
                         (or_introl (ex_intro _ 4128 eq_refl)) 4096
                         ltac:(vm_compute; discriminate)
                         ltac:(vm_compute; reflexivity) Hm).
Defined.

(** [scan_blob_reads] on [file_magic_only]: the scan reads outside the
    file, at the header behind the magic number at offset 0. *)
Lemma scan_blob_reads_witness :
  4 <= buf_len file_magic_only < 2 ^ 64
  /\ (Z.to_nat (buf_len file_magic_only - 4) < 10)%nat
  /\ fst (scan_blob 10 file_magic_only false "f" io0) = Fault
  /\ exists k,
      buf_base file_magic_only <= k
      /\ k + 4 < buf_base file_magic_only + buf_len file_magic_only
      /\ hdr file_magic_only k o_magic = Some FDT_MAGIC
      /\ buf_base file_magic_only + buf_len file_magic_only < k + 28.
Proof.
  assert (H0 : 4 <= buf_len file_magic_only < 2 ^ 64)
    by (vm_compute; split; [discriminate|reflexivity]).
  assert (H1 : (Z.to_nat (buf_len file_magic_only - 4) < 10)%nat)
    by (vm_compute; lia).
  assert (H2 : fst (scan_blob 10 file_magic_only false "f" io0) = Fault)
    by (vm_compute; reflexivity).
  split; [exact H0|]. split; [exact H1|]. split; [exact H2|].
  exact (proj2 (scan_blob_reads 10 file_magic_only false "f" io0 H0 H1) H2).
Defined.

(** [scan_misses_last_four] on [file_late_magic]. *)
Lemma scan_misses_last_four_witness :
  4 <= buf_len file_late_magic < 2 ^ 64
  /\ scan_blob 1 file_late_magic false "f" io0
     = (Exit 1, mkio "" ("f: could not locate fdt magic" ++ nl)).
Proof.
  assert (H0 : 4 <= buf_len file_late_magic < 2 ^ 64)
    by (vm_compute; split; [discriminate|reflexivity]).
  split; [exact H0|].
  apply (scan_misses_last_four O file_late_magic false "f" io0 H0).
  intros k Hk.
  change (buf_base file_late_magic) with 4096 in Hk.
  change (buf_len file_late_magic) with 8 in Hk.
  assert (Hcases : k = 4096 \/ k = 4097 \/ k = 4098 \/ k = 4099) by lia.
  destruct Hcases as [ -> | [ -> | [ -> | -> ] ] ]; vm_compute; discriminate.
Defined.

(** [prop_value_aligned] on a property of 8 bytes in a version 15 blob
    at address 4096, its cells at offsets 68 and 72. *)
Lemma prop_value_aligned_witness :
  15 < 16 /\ 8 <= 8 /\ 4096 mod 8 = 0
  /\ (prop_value 15 8 (4096 + 76) - 4096) mod 8 = 0
  /\ 4096 + 76 <= prop_value 15 8 (4096 + 76) < 4096 + 76 + 8.
Proof.
  split; [lia|]. split; [lia|]. split; [reflexivity|].
  apply (prop_value_aligned 15 8 (4096 + 76) 4096);
    [lia|lia|reflexivity|lia|vm_compute; reflexivity].
Defined.

(** ** A live tree is dumped to its end *)

Section LiveEnds.

Variable utilfdt_print_data : list byte -> string.

(** A file that is opened and gives as many bytes as its size says:
    the line printed for it. *)
Lemma dump_live_file_ok (fuel : nat) (path d_name : string) (f : regfile)
      (depth : Z) (io : stdio) :
  (0 < fuel)%nat ->
  size_holds f = true ->
  exists text,
    dump_live_file utilfdt_print_data fuel path d_name f depth io
    = (Ok tt, mkio (out io ++ text) (err io)).
Proof.
  intros Hfuel Hs.
  destruct f as [[st_size|] opens content fails];
    unfold size_holds in Hs; cbn [f_size f_opens f_bytes] in Hs;
    [|discriminate].
  apply andb_prop in Hs. destruct Hs as (Hsz & Ho).
  apply Z.eqb_eq in Hsz. subst opens.
  rewrite (dump_live_file_run utilfdt_print_data fuel path d_name st_size
                              content fails depth io Hfuel) by lia.
  eexists. reflexivity.
Qed.

Lemma dump_live_files_ok (fuel : nat) (path : string) (l : list entry)
      (depth : Z) :
  (0 < fuel)%nat -> forallb sizes_hold l = true ->
  forall io,
  exists w,
    dump_live_files utilfdt_print_data fuel path l depth io
    = (Ok tt, mkio (out io ++ w) (err io)).
Proof.
  intros Hfuel.
  induction l as [|[n f|n sub|n|n] r IH]; cbn [forallb sizes_hold];
    intros Hl io; cbn [dump_live_files]; try discriminate.
  - exists "". unfold ret. rewrite append_nil_r. now destruct io.
  - apply andb_prop in Hl. destruct Hl as (Hsz & Hr).
    destruct (dump_live_file_ok fuel path n f depth io Hfuel Hsz)
      as (text & E).
    rewrite (bind_ok _ _ _ _ tt E).
    destruct (IH Hr (mkio (out io ++ text) (err io))) as (w & Ew).
    rewrite Ew. cbn [out err]. eexists. rewrite append_assoc. reflexivity.
  - apply andb_prop in Hl. now apply IH.
  - now apply IH.
Qed.

Lemma dump_live_internal_ok (fuel : nat) (dir : entry) (debug : bool) :
  (0 < fuel)%nat ->
  (exists d_name entries, dir = Dir d_name entries) ->
  sizes_hold dir = true ->
  forall path depth io,
  exists w,
    dump_live_internal utilfdt_print_data fuel path dir debug depth io
    = (Ok tt, mkio (out io ++ w) (err io)).
Proof.
  intros Hfuel.
  induction dir as [d_name f|d_name entries IH|d_name|d_name]
    using entry_tree_ind; intros (n0 & l0 & E) Hs path depth io;
    try discriminate.
  clear E. cbn [sizes_hold] in Hs. cbn [dump_live_internal].
  destruct (dump_live_files_ok fuel path entries depth Hfuel Hs io)
    as (w0 & Ef).
  rewrite (bind_ok _ _ _ _ tt Ef).
  match goal with
  | |- exists w, ?d entries ?i = _ => set (dirs := d)
  end.
  assert (Hunf : forall l io1,
             dirs l io1 =
               match l with
               | [] => ret tt
               | (Dir n _ | NoDir n) as de :: r =>
                   if is_dot n then dirs r
                   else
                     printf (Printf.pad (depth * shift) ++ n ++ " {" ++ nl) ;;;
                     dump_live_internal utilfdt_print_data fuel
                                        (path ++ "/" ++ n) de debug
                                        (depth + 1) ;;;
                     printf (Printf.pad (depth * shift) ++ "};" ++ nl) ;;;
                     dirs r
               | _ :: r => dirs r
               end io1)
    by (intros [|[n f|n sub|n|n] r] io1; reflexivity).
  assert (Hdirs :
            forall io1,
            exists w, dirs entries io1 = (Ok tt, mkio (out io1 ++ w) (err io1))).
  { clear Ef w0 io.
    induction IH as [|e r He Hr IHr]; intros io; rewrite Hunf.
    - exists "". unfold ret. rewrite append_nil_r. now destruct io.
    - cbn [forallb] in Hs. apply andb_prop in Hs.
      destruct Hs as (Hse & Hsr).
      destruct e as [n f|n sub|n|n]; try (now apply IHr); [|discriminate].
      destruct (is_dot n); [now apply IHr|].
      rewrite bind_printf.
      edestruct (He ltac:(eauto) Hse) as (w1 & E1).
      rewrite (bind_ok _ _ _ _ tt E1). rewrite bind_printf.
      edestruct (IHr Hsr) as (w2 & E2).
      rewrite E2. cbn [out err]. eexists.
      rewrite !append_assoc. reflexivity. }
  destruct (Hdirs (mkio (out io ++ w0) (err io))) as (w & Ew).
  rewrite Ew. cbn [out err]. eexists. rewrite append_assoc. reflexivity.
Qed.

(** X16: a live tree in which every directory is opened and every
    regular file is opened and gives as many bytes as [stat] reports
    for its size is dumped to its end: whatever its depth and the sizes
    of its files, the walk neither stops early nor goes on for ever,
    and [main] returns 0, with the closing brace of the root as the
    last line on standard output and nothing added to standard
    error. *)
Theorem live_tree_ends (fuel : nat) (debug scan : bool) (file d_name : string)
        (entries : list entry) (io : stdio) :
  (0 < fuel)%nat ->
  sizes_hold (Dir d_name entries) = true ->
  exists w,
    main utilfdt_print_data fuel debug scan file
         (Directory (Dir d_name entries)) io
    = (Ok 0,
       mkio (out io ++ "/* dump of live tree at " ++ strip_trailing file
             ++ " */" ++ nl ++ "/ {" ++ nl ++ w ++ "};" ++ nl)
            (err io)).
Proof.
  intros Hfuel Hs. cbn [main]. unfold dump_live.
  unfold bind at 1. rewrite !bind_printf.
  edestruct (dump_live_internal_ok
               fuel (Dir d_name entries) debug Hfuel ltac:(eauto) Hs)
    as (w & Ew).
  rewrite (bind_ok _ _ _ _ tt Ew). rewrite printf_run.
  exists w.
  cbn [out err ret]. rewrite !append_assoc. reflexivity.
Qed.

End LiveEnds.

(** [live_tree_ends] on [live_root]. *)
Lemma live_tree_ends_witness :
  (0 < 1)%nat
  /\ sizes_hold live_root = true
  /\ exists w,
      main show_hex 1 false false "/proc/device-tree/" (Directory live_root)
           io0
      = (Ok 0,
         mkio ("" ++ "/* dump of live tree at "
               ++ strip_trailing "/proc/device-tree/" ++ " */" ++ nl
               ++ "/ {" ++ nl ++ w ++ "};" ++ nl)
              "").
Proof.
  split; [lia|]. split; [reflexivity|].
  apply (live_tree_ends show_hex 1 false false "/proc/device-tree/" ""
           [ Dir "." []; Dir ".." []; Dir "child" [];
             Reg "status" (plain 5 (B [111; 107; 97; 121; 0])) ] io0);
    [lia|reflexivity].
Defined.

(** The listing [live_mixed], with a directory and a symbolic link
    before the file: the property comes first all the same. *)
Example live_mixed_run :
  out (snd (main show_hex 1 false false "root" (Directory (Dir "" live_mixed))
                 io0))
  = "/* dump of live tree at root */" ++ nl
    ++ "/ {" ++ nl
    ++ "    status = [6f 6b 61 79 00];" ++ nl
    ++ "    child {" ++ nl
    ++ "    };" ++ nl
    ++ "};" ++ nl.
Proof. vm_compute. reflexivity. Qed.

(** Paths with slashes at the end. *)
Example strip_trailing_runs :
  strip_trailing "/proc/device-tree//" = "/proc/device-tree"
  /\ strip_trailing "///" = "/"
  /\ strip_trailing "a/b" = "a/b"
  /\ strip_trailing "" = "".
Proof. vm_compute. repeat split. Qed.

(** ** The macro [ALIGN] *)

Lemma multiple_le (a q1 q2 : Z) : 0 < a -> q1 * a < q2 * a + a -> q1 <= q2.
Proof. intros Ha H. nia. Qed.

(** X17: for a power of two [a] up to 2^63 and as long as [x + a - 1]
    does not pass 2^64, [ALIGN(x, a)] is the least multiple of [a] at
    or after [x]: a multiple of [a], less than [a] above [x], below
    every other such multiple, and left as it is by [ALIGN]. *)
Theorem ALIGN_least_multiple (k x : Z) :
  0 <= k < 64 -> 0 <= x -> x + (2 ^ k - 1) < 2 ^ 64 ->
  let a := 2 ^ k in
  let r := ALIGN x a in
  r mod a = 0
  /\ x <= r < x + a
  /\ (forall y, x <= y -> y mod a = 0 -> r <= y)
  /\ ALIGN r a = r.
Proof.
  intros Hk Hx Hmax a r.
  assert (Ha : 0 < a) by (subst a; apply Z.pow_pos_nonneg; lia).
  assert (Er : r = (x + (a - 1)) / a * a)
    by (subst r a; apply ALIGN_pow2; lia).
  destruct (round_up_bounds a x Ha) as (Hmod & Hle). cbv zeta in Hmod, Hle.
  rewrite <- Er in Hmod, Hle.
  split; [exact Hmod|]. split; [exact Hle|]. split.
  - intros y Hy Hym.
    apply Z.mod_divide in Hym; [|lia]. destruct Hym as (q & ->).
    rewrite Er. apply Z.mul_le_mono_nonneg_r; [lia|].
    apply (multiple_le a); [exact Ha|]. rewrite <- Er. lia.
  - assert (H64 : 2 ^ 64 = 2 ^ (64 - k) * a)
      by (subst a; rewrite <- Z.pow_add_r by lia; f_equal; lia).
    assert (Hr64 : r + (a - 1) < 2 ^ 64).
    { assert (Hq : (x + (a - 1)) / a <= 2 ^ (64 - k) - 1).
      { apply (multiple_le a); [exact Ha|]. rewrite <- Er.
        replace ((2 ^ (64 - k) - 1) * a + a) with (2 ^ 64) by lia. lia. }
      rewrite Er. nia. }
    subst r a. rewrite (ALIGN_pow2 k (ALIGN x (2 ^ k))) by lia.
    fold (ALIGN x (2 ^ k)). set (a := 2 ^ k) in *. set (r := ALIGN x a) in *.
    rewrite Er at 1.
    replace ((x + (a - 1)) / a * a + (a - 1))
      with ((a - 1) + (x + (a - 1)) / a * a) by lia.
    rewrite Z.div_add by lia. rewrite (Z.div_small (a - 1) a) by lia.
    rewrite Z.add_0_l. symmetry. exact Er.
Qed.

(** [ALIGN_least_multiple] for the boundary of 8 bytes and the address
    4172. *)
Lemma ALIGN_least_multiple_witness :
  0 <= 3 < 64 /\ 0 <= 4172
  /\ ALIGN 4172 (2 ^ 3) = 4176
  /\ ALIGN 4172 (2 ^ 3) mod 2 ^ 3 = 0
  /\ ALIGN (ALIGN 4172 (2 ^ 3)) (2 ^ 3) = ALIGN 4172 (2 ^ 3).
Proof.
  destruct (ALIGN_least_multiple 3 4172 ltac:(lia) ltac:(lia)
                                 ltac:(vm_compute; reflexivity))
    as (W1 & _ & _ & W4).
  split; [lia|]. split; [lia|]. split; [vm_compute; reflexivity|].
  split; [exact W1|exact W4].
Defined.
